(** * go-iden3-core: off-chain publisher cache, issuer state machine,
      claim codec and bitmap helpers.

    The publisher ([components/idenpuboffchainwriter]) is embedded from its
    Go source.  Bytes are integers in [0, 256) with the wrap-around of Go's
    unsigned arithmetic written out; the key-value store is a finite map
    from byte strings to byte strings; a transaction buffers its writes
    until [Commit].  The issuer, the claim codec and the bitmap helpers are
    reached by the tests only; they are modelled from the specification
    and marked as such. *)

From Stdlib Require Import ZArith List Lia String Ascii.
From stdpp Require Import base option list gmap.

Local Open Scope Z_scope.

(** ** Bytes, hashes, errors *)

Module Bytes.

(** Go's [byte] is an integer in [0, 256): unsigned 8-bit addition and
    subtraction wrap around. *)
Definition add8 (a b : Z) : Z := (a + b) mod 256.
Definition sub8 (a b : Z) : Z := (a - b) mod 256.

(** [[]byte("...")]: the ASCII codes of a string literal. *)
Definition str (s : string) : list Z :=
  map (fun a => Z.of_N (N_of_ascii a)) (list_ascii_of_string s).

(** [merkletree.ElemBytesLen] *)
Definition ElemBytesLen : nat := 32.

(** [merkletree.Hash] is [[32]byte]. *)
Definition is_hash (h : list Z) : Prop := length h = ElemBytesLen.

(** [merkletree.HashZero] *)
Definition HashZero : list Z := repeat 0 ElemBytesLen.

End Bytes.
Export Bytes.

(** Errors of the publisher and of its collaborators. *)
Inductive error : Type :=
  | ErrIdenStateNotFound            (* identity state not found in the cache *)
  | ErrNotFound                     (* db.ErrNotFound: key absent *)
  | ErrIdenStateOnChainZero         (* issuer: no state on chain yet *)
  | ErrClaimNotFoundStateOnChain    (* issuer: claim newer than the on-chain state *)
  | ErrUnexpectedOnChainState       (* issuer: registry state neither pending nor known *)
  | ErrCollab (tag : Z).            (* an error of a collaborator (tree, storage I/O) *)

(** What a Go call does: return a value, return an error, or panic
    (integer division by zero, index or slice bound out of range). *)
Inductive outcome (A : Type) : Type :=
  | Ok (a : A)
  | Err (e : error)
  | Panic.
Arguments Ok {A} a.
Arguments Err {A} e.
Arguments Panic {A}.

(** ** Storage ([db.Storage], [db.Tx]) *)

Module Db.

(** Faults of the underlying store, chosen by the environment per call. *)
Record Faults : Type := {
  newTxErr : option error;
  commitErr : option error
}.

Definition noFaults : Faults := {| newTxErr := None; commitErr := None |}.

(** A transaction: the store as it was when the transaction began and the
    writes buffered since. *)
Record Tx : Type := {
  tx_base : gmap (list Z) (list Z);
  tx_kv : gmap (list Z) (list Z)
}.

Definition NewTx (fl : Faults) (s : gmap (list Z) (list Z)) : outcome Tx :=
  match newTxErr fl with
  | Some e => Err e
  | None => Ok {| tx_base := s; tx_kv := ∅ |}
  end.

(** [tx.Get]: buffered writes first, then the store. *)
Definition Get (tx : Tx) (k : list Z) : outcome (list Z) :=
  match tx_kv tx !! k with
  | Some v => Ok v
  | None =>
      match tx_base tx !! k with
      | Some v => Ok v
      | None => Err ErrNotFound
      end
  end.

Definition Put (tx : Tx) (k v : list Z) : Tx :=
  {| tx_base := tx_base tx; tx_kv := <[k := v]> (tx_kv tx) |}.

(** [tx.Commit]: all buffered writes reach the store, or none does. *)
Definition Commit (fl : Faults) (tx : Tx) : outcome unit * gmap (list Z) (list Z) :=
  match commitErr fl with
  | Some e => (Err e, tx_base tx)
  | None => (Ok tt, tx_kv tx ∪ tx_base tx)
  end.

(** [tx.Close]: the buffered writes are dropped. *)
Definition Close (tx : Tx) : gmap (list Z) (list Z) := tx_base tx.

(** Code running inside a transaction: it may buffer writes, and returns,
    fails or panics. *)
Definition txM (A : Type) : Type := Tx -> outcome A * Tx.

Definition tx_ret {A} (a : A) : txM A := fun tx => (Ok a, tx).
Definition tx_bind {A B} (m : txM A) (f : A -> txM B) : txM B := fun tx =>
  match m tx with
  | (Ok a, tx') => f a tx'
  | (Err e, tx') => (Err e, tx')
  | (Panic, tx') => (Panic, tx')
  end.
Definition tx_get (k : list Z) : txM (list Z) := fun tx => (Get tx k, tx).
Definition tx_put (k v : list Z) : txM unit := fun tx => (Ok tt, Put tx k v).
Definition tx_lift {A} (o : outcome A) : txM A := fun tx => (o, tx).

End Db.
Export Db.

Declare Scope tx_scope.
Delimit Scope tx_scope with tx.
Notation "'let*' x := m 'in' k" := (tx_bind m (fun x => k))
  (at level 10, x name, m at level 100, k at level 200) : tx_scope.
Notation "m >> k" := (tx_bind m (fun _ => k))
  (at level 61, left associativity) : tx_scope.

(** ** The publisher: [components/idenpuboffchainwriter] *)

Module Publisher.

Definition dbKeyConfig : list Z := str "config".
Definition dbKeyCacheIdx : list Z := str "cacheidx".
Definition dbKeyIdenState : list Z := str "idenstate".
Definition dbKeyClaimsRoot : list Z := str "claimsroot".
Definition dbKeyRootsRoot : list Z := str "rootsroot".
Definition dbKeyRevocationsRoot : list Z := str "revocationsroot".
Definition dbKeyRootsTree : list Z := str "rootstree".
Definition dbKeyRevocationsTree : list Z := str "revocationstree".

(** [type Config struct { CacheLen byte }] *)
Record Config : Type := { CacheLen : Z }.

Definition ConfigDefault : Config := {| CacheLen := 1 |}.

(** The part of [*merkletree.MerkleTree] the publisher uses: [DumpTree]
    from a root, giving the bytes written or an error. *)
Record MerkleTree : Type := { DumpTree : list Z -> outcome (list Z) }.

(** [IdenPubOffChainWriteHttp]; its [storage] is threaded explicitly and
    its lock is the sequential order of the calls. *)
Record IdenPubOffChainWriteHttp : Type := {
  rootsTree : MerkleTree;
  revocationsTree : MerkleTree;
  cfg : Config
}.

(** [append(key, idx)] *)
Definition slotKey (key : list Z) (idx : Z) : list Z := key ++ [idx].

(** [b[0]]: panics on an empty slice. *)
Definition index0 (b : list Z) : outcome Z :=
  match b with
  | x :: _ => Ok x
  | [] => Panic
  end.

(** [a % b] on bytes: panics when [b] is zero. *)
Definition mod8 (a b : Z) : outcome Z :=
  if b =? 0 then Panic else Ok (a mod b).

(** Decimal digits of a byte, as [encoding/json] prints a [uint8]. *)
Definition decimal (n : Z) : list Z :=
  if n <? 10 then [48 + n]
  else if n <? 100 then [48 + n / 10; 48 + n mod 10]
  else [48 + n / 100; 48 + (n / 10) mod 10; 48 + n mod 10].

(** [json.Marshal] of a [Config]: an object with the one field CacheLen. *)
Definition jsonConfig (c : Config) : list Z :=
  [123; 34] ++ str "CacheLen" ++ [34; 58] ++ decimal (CacheLen c) ++ [125].

Local Open Scope tx_scope.

Definition prevCacheIdx (i : IdenPubOffChainWriteHttp) : txM Z :=
  let* cacheIdx := tx_get dbKeyCacheIdx in
  let* c0 := tx_lift (index0 cacheIdx) in
  tx_lift (mod8 (sub8 c0 1) (CacheLen (cfg i))).

(** Returns the current cacheIdx and stores the next one. *)
Definition nextCacheIdx (i : IdenPubOffChainWriteHttp) : txM Z :=
  let* cacheIdx := tx_get dbKeyCacheIdx in
  let* c0 := tx_lift (index0 cacheIdx) in
  let* next := tx_lift (mod8 (add8 c0 1) (CacheLen (cfg i))) in
  tx_put dbKeyCacheIdx [next] >>
  tx_ret c0.

Definition initCacheIdx : txM unit := tx_put dbKeyCacheIdx [0].

(** [db.StoreJSON(tx, key, &cfg)] *)
Definition StoreJSON (key : list Z) (c : Config) : txM unit :=
  tx_put key (jsonConfig c).

Definition NewIdenPubOffChainWriteHttp (fl : Faults) (c : Config)
    (storage : gmap (list Z) (list Z)) (rot ret : MerkleTree)
    : outcome IdenPubOffChainWriteHttp * gmap (list Z) (list Z) :=
  let i := {| rootsTree := rot; revocationsTree := ret; cfg := c |} in
  match NewTx fl storage with
  | Err e => (Err e, storage)
  | Panic => (Panic, storage)
  | Ok tx =>
      match (initCacheIdx >> StoreJSON dbKeyConfig c) tx with
      | (Ok _, tx') =>
          match Commit fl tx' with
          | (Ok _, s') => (Ok i, s')
          | (Err e, s') => (Err e, s')
          | (Panic, s') => (Panic, s')
          end
      | (Err e, tx') => (Err e, Close tx')
      | (Panic, tx') => (Panic, Close tx')
      end
  end.

(** The six records of a slot, in the order [Publish] writes them. *)
Definition putSlot (cacheIdx : Z)
    (idenState claimsRoot rootsRoot rotBlob revocationsRoot retBlob : list Z)
    : txM unit :=
  tx_put (slotKey dbKeyIdenState cacheIdx) idenState >>
  tx_put (slotKey dbKeyClaimsRoot cacheIdx) claimsRoot >>
  tx_put (slotKey dbKeyRootsRoot cacheIdx) rootsRoot >>
  tx_put (slotKey dbKeyRootsTree cacheIdx) rotBlob >>
  tx_put (slotKey dbKeyRevocationsRoot cacheIdx) revocationsRoot >>
  tx_put (slotKey dbKeyRevocationsTree cacheIdx) retBlob.

(** The deferred function of [Publish]: commit when [err == nil] (also
    when the body panicked before [err] was assigned), close otherwise;
    a failed commit closes the transaction and is not reported. *)
Definition publishDeferred (fl : Faults) (errIsNil : bool) (tx : Tx)
    : gmap (list Z) (list Z) :=
  if errIsNil then
    match Commit fl tx with
    | (Ok _, s') => s'
    | (_, _) => Close tx
    end
  else Close tx.

Definition Publish (fl : Faults) (i : IdenPubOffChainWriteHttp)
    (storage : gmap (list Z) (list Z))
    (idenState claimsRoot revocationsRoot rootsRoot : list Z)
    : outcome unit * gmap (list Z) (list Z) :=
  match DumpTree (rootsTree i) rootsRoot with
  | Err e => (Err e, storage)
  | Panic => (Panic, storage)
  | Ok rotBlob =>
      match DumpTree (revocationsTree i) revocationsRoot with
      | Err e => (Err e, storage)
      | Panic => (Panic, storage)
      | Ok retBlob =>
          match NewTx fl storage with
          | Err e => (Err e, storage)
          | Panic => (Panic, storage)
          | Ok tx =>
              match nextCacheIdx i tx with
              | (Err e, tx') => (Err e, publishDeferred fl false tx')
              | (Panic, tx') => (Panic, publishDeferred fl true tx')
              | (Ok cacheIdx, tx') =>
                  let '(_, tx'') :=
                    putSlot cacheIdx idenState claimsRoot rootsRoot rotBlob
                      revocationsRoot retBlob tx' in
                  (Ok tt, publishDeferred fl true tx'')
              end
          end
      end
  end.

(** [PublicData] *)
Record PublicData : Type := {
  IdenState : list Z;
  ClaimsTreeRoot : list Z;
  RootsTreeRoot : list Z;
  RootsTree : list Z;
  RevocationsTreeRoot : list Z;
  RevocationsTree : list Z
}.

(** [b[:32]] copied into a [[32]byte]: panics when the slice is shorter
    (capacity taken to be the length). *)
Definition slice32 (b : list Z) : outcome (list Z) :=
  if (length b <? ElemBytesLen)%nat then Panic else Ok (take ElemBytesLen b).

(** The scan loop of [GetPublicData]:
    [for ; idx < CacheLen; idx++ { get; if equal break }].
    [remaining] is [CacheLen - idx]; the result is the value of [idx]
    when the loop is left. *)
Fixpoint scanIdenState (tx : Tx) (query : list Z) (remaining : nat) (idx : Z)
    : outcome Z :=
  match remaining with
  | O => Ok idx
  | S r =>
      match Get tx (slotKey dbKeyIdenState idx) with
      | Err e => Err e
      | Panic => Panic
      | Ok idenState =>
          if bool_decide (query = idenState) then Ok idx
          else scanIdenState tx query r (add8 idx 1)
      end
  end.

(** The slot choice of [GetPublicData]: the variable [cacheIdx] is
    assigned in the nil branch only; the scan of the other branch moves
    its own [idx] and leaves [cacheIdx] at its zero value. *)
Definition selectCacheIdx (i : IdenPubOffChainWriteHttp)
    (queryIdenState : option (list Z)) : txM Z :=
  match queryIdenState with
  | None => prevCacheIdx i
  | Some q => fun tx =>
      match scanIdenState tx q (Z.to_nat (CacheLen (cfg i))) 0 with
      | Err e => (Err e, tx)
      | Panic => (Panic, tx)
      | Ok idx =>
          if idx =? CacheLen (cfg i) then (Err ErrIdenStateNotFound, tx)
          else (Ok 0, tx)
      end
  end.

Definition readSlot (cacheIdx : Z) : txM PublicData :=
  let* idenState := tx_get (slotKey dbKeyIdenState cacheIdx) in
  let* cltRoot := tx_get (slotKey dbKeyClaimsRoot cacheIdx) in
  let* rotRoot := tx_get (slotKey dbKeyRootsRoot cacheIdx) in
  let* rot := tx_get (slotKey dbKeyRootsTree cacheIdx) in
  let* retRoot := tx_get (slotKey dbKeyRevocationsRoot cacheIdx) in
  let* ret := tx_get (slotKey dbKeyRevocationsTree cacheIdx) in
  let* idenState32 := tx_lift (slice32 idenState) in
  let* cltRoot32 := tx_lift (slice32 cltRoot) in
  let* rotRoot32 := tx_lift (slice32 rotRoot) in
  let* retRoot32 := tx_lift (slice32 retRoot) in
  tx_ret {| IdenState := idenState32;
            ClaimsTreeRoot := cltRoot32;
            RootsTreeRoot := rotRoot32;
            RootsTree := rot;
            RevocationsTreeRoot := retRoot32;
            RevocationsTree := ret |}.

(** [GetPublicData]: the transaction is only read and closed at the end,
    so the store is unchanged and only the result is returned. *)
Definition GetPublicData (fl : Faults) (i : IdenPubOffChainWriteHttp)
    (storage : gmap (list Z) (list Z)) (queryIdenState : option (list Z))
    : outcome PublicData :=
  match NewTx fl storage with
  | Err e => Err e
  | Panic => Panic
  | Ok tx =>
      fst ((let* cacheIdx := selectCacheIdx i queryIdenState in
            readSlot cacheIdx) tx)
  end.

End Publisher.
Export Publisher.

(** ** Bitmap helpers of package merkletree *)

Module Bitmap.

(** Modelled from the spec: [setBitBigEndian] and [testBitBigEndian] are
    called by [TestGetSetBitmap], and their bodies are not among the
    sources.  Section 4.1 of the spec addresses bit [i] as the
    [(i mod 8)]-th most significant bit of byte [i / 8]; the mask of that
    bit is [0x80 >> (i mod 8)].  An index past the end of the buffer
    panics, as indexing a Go slice does. *)
Definition bitMask (n : Z) : Z := Z.shiftr 128 (n mod 8).

(** Modelled from the spec: [setBitBigEndian] sets the bit of the mask
    in byte [n / 8]. *)
Definition setBitBigEndian (bitmap : list Z) (n : Z) : outcome (list Z) :=
  match bitmap !! Z.to_nat (n / 8) with
  | Some b => Ok (<[Z.to_nat (n / 8) := Z.lor b (bitMask n)]> bitmap)
  | None => Panic
  end.

(** Modelled from the spec: [testBitBigEndian] tests the bit of the mask
    in byte [n / 8]. *)
Definition testBitBigEndian (bitmap : list Z) (n : Z) : outcome bool :=
  match bitmap !! Z.to_nat (n / 8) with
  | Some b => Ok (negb (Z.land b (bitMask n) =? 0))
  | None => Panic
  end.

(** [hex.EncodeToString]: two lower-case digits per byte. *)
Definition hexDigit (d : Z) : ascii :=
  nth (Z.to_nat d) (list_ascii_of_string "0123456789abcdef") "0"%char.

Definition EncodeToString (bs : list Z) : string :=
  string_of_list_ascii
    (flat_map (fun b => [hexDigit (b / 16); hexDigit (b mod 16)]) bs).

(** The three [setBitBigEndian] calls of [TestGetSetBitmap], on an
    all-zero [[32]byte]. *)
Definition testVector : outcome (list Z) :=
  match setBitBigEndian (repeat 0 32%nat) 7 with
  | Ok v1 =>
      match setBitBigEndian v1 8 with
      | Ok v2 => setBitBigEndian v2 255
      | o => o
      end
  | o => o
  end.

End Bitmap.
Export Bitmap.

(** ** Claims: entries and the codec of [ClaimAuthorizeKSignBabyJub] *)

Module Claims.

(** Modelled from the spec: [merkletree.Entry] is not among the sources;
    section 3 of the spec makes it a record of eight field elements, four
    index slots and four value slots.  Each slot is held here as the number
    its 32 bytes encode. *)
Record Entry : Type := {
  i_0 : Z; i_1 : Z; i_2 : Z; i_3 : Z;
  v_0 : Z; v_1 : Z; v_2 : Z; v_3 : Z
}.

Definition slots (e : Entry) : list Z :=
  [i_0 e; i_1 e; i_2 e; i_3 e; v_0 e; v_1 e; v_2 e; v_3 e].

(** The 32 big-endian bytes of a slot. *)
Fixpoint bigEndian (len : nat) (x : Z) : list Z :=
  match len with
  | O => []
  | S k => bigEndian k (x / 256) ++ [x mod 256]
  end.

(** [Entry.Bytes]: the eight slots, 32 bytes each. *)
Definition EntryBytes (e : Entry) : list Z :=
  flat_map (bigEndian ElemBytesLen) (slots e).

(** Modelled from the spec: the claim codec of package claims
    ([NewClaimAuthorizeKSignBabyJub], its [Entry] method,
    [NewClaimAuthorizeKSignBabyJubFromEntry], [NewClaimFromEntry]) and
    [merkletree.CheckEntryInField] are used by the tests and are not
    among the sources.  Sections 3 and 4.4 of the spec fix that the 64-bit
    claim type sits in the low bytes of [i_0], that the other index bits
    carry the type-specific data (version, public-key components), that
    the revocation nonce is part of the value, and that the dispatcher
    maps an unknown type to an opaque claim that keeps the raw entry.
    The positions of version and key sign inside [i_0] are those of this
    model. *)
Record ClaimAuthorizeKSignBabyJub : Type := {
  Version : Z;            (* uint32 *)
  Sign : bool;            (* sign of the key's x coordinate *)
  Ay : Z;                 (* the key's y coordinate, a field element *)
  RevocationNonce : Z     (* uint32 *)
}.

(** Modelled from the spec: a BabyJubJub public key, a point with
    coordinates in the field. *)
Record PublicKey : Type := { X : Z; Y : Z }.

Inductive Claim : Type :=
  | AuthorizeKSignBabyJub (c : ClaimAuthorizeKSignBabyJub)
  | Opaque (e : Entry).

Section Codec.

(** The field prime and the type tag of the claim. *)
Variable Q : Z.
Variable ClaimTypeAuthorizeKSignBabyJub : Z.

(** Modelled from the spec: the sign of a coordinate kept by the claim,
    set when the coordinate lies in the upper half of the field. *)
Definition PointCoordSign (x : Z) : bool := (Q - 1) / 2 <? x.

(** Modelled from the spec: the constructor from a public key and a
    revocation nonce; the version starts at zero. *)
Definition NewClaimAuthorizeKSignBabyJub (pk : PublicKey) (revNonce : Z)
    : ClaimAuthorizeKSignBabyJub :=
  {| Version := 0; Sign := PointCoordSign (X pk); Ay := Y pk;
     RevocationNonce := revNonce |}.

(** Modelled from the spec: the [Entry] method of the claim.
    [i_0] = type (bits 0..63) | version (bits 64..95) | sign (bit 96);
    [i_1] = Ay; [v_0] = revocation nonce. *)
Definition ClaimEntry (c : ClaimAuthorizeKSignBabyJub) : Entry :=
  {| i_0 := Z.lor ClaimTypeAuthorizeKSignBabyJub
              (Z.lor (Z.shiftl (Version c) 64)
                     (Z.shiftl (Z.b2z (Sign c)) 96));
     i_1 := Ay c; i_2 := 0; i_3 := 0;
     v_0 := RevocationNonce c; v_1 := 0; v_2 := 0; v_3 := 0 |}.

(** The claim type of an entry: the low 64 bits of [i_0]. *)
Definition entryType (e : Entry) : Z := Z.land (i_0 e) (Z.ones 64).

(** Modelled from the spec: the type-specific constructor from an
    entry, reading back the fields [ClaimEntry] places. *)
Definition NewClaimAuthorizeKSignBabyJubFromEntry (e : Entry)
    : ClaimAuthorizeKSignBabyJub :=
  {| Version := Z.land (Z.shiftr (i_0 e) 64) (Z.ones 32);
     Sign := Z.testbit (i_0 e) 96;
     Ay := i_1 e;
     RevocationNonce := Z.land (v_0 e) (Z.ones 32) |}.

(** Modelled from the spec: the dispatcher inspects the type tag and
    returns the matching variant; an unknown type gives an opaque
    claim with the raw entry. *)
Definition NewClaimFromEntry (e : Entry) : outcome Claim :=
  if entryType e =? ClaimTypeAuthorizeKSignBabyJub
  then Ok (AuthorizeKSignBabyJub (NewClaimAuthorizeKSignBabyJubFromEntry e))
  else Ok (Opaque e).

(** Modelled from the spec: [Entry()] of the tagged variant; an opaque
    claim gives back its raw entry. *)
Definition EntryOf (c : Claim) : Entry :=
  match c with
  | AuthorizeKSignBabyJub k => ClaimEntry k
  | Opaque e => e
  end.

(** Modelled from the spec: [merkletree.CheckEntryInField], every slot
    is below the prime. *)
Definition CheckEntryInField (e : Entry) : bool :=
  forallb (fun x => (0 <=? x) && (x <? Q)) (slots e).

(** A well-formed claim: 32-bit version and nonce, key coordinate in
    the field. *)
Definition wellFormed (c : ClaimAuthorizeKSignBabyJub) : Prop :=
  0 <= Version c < 2 ^ 32 /\ 0 <= RevocationNonce c < 2 ^ 32 /\ 0 <= Ay c < Q.

End Codec.

End Claims.
Export Claims.

(** ** The issuer state machine *)

Module Issuer.

(** Modelled from the spec: package issuer ([New], [state],
    [IssueClaim], [SyncIdenStatePublic], [GenCredentialExistence]) is
    exercised by [TestIssuerGenesis], [TestIssuerPublish] and
    [TestIssuerCredential], and its code is not among the sources.  The
    definitions follow sections 3 and 4.5 of the spec: the persistent
    state holds the identifier, the state log seeded with the genesis
    state, the pointers [idenStateOnChain] and [idenStatePending], and
    for each claim the index of the state that first includes it.  The
    three trees are kept by their roots; the transaction handle of a log
    entry is left out. *)
Record Issuer : Type := {
  ID : list Z;
  claimsRoot : list Z;
  revocationsRoot : list Z;
  rootsRoot : list Z;
  idenStateList : list (list Z);
  idenStateOnChain : list Z;
  idenStatePending : list Z;
  claimToState : gmap (list Z) nat
}.

(** Modelled from the spec: the credential of existence, with the claim,
    the on-chain state it is proved against, and the two proofs. *)
Record CredentialExistence : Type := {
  credId : list Z;
  credIdenState : list Z;
  credClaim : Entry;
  credProofs : list Z * list Z
}.

(** Position of a state in the log. *)
Fixpoint indexOf (h : list Z) (log : list (list Z)) : option nat :=
  match log with
  | [] => None
  | x :: rest =>
      if bool_decide (x = h) then Some O
      else match indexOf h rest with
           | Some k => Some (S k)
           | None => None
           end
  end.

Section Collaborators.

(** The field hash of three roots, the derivation of the identifier,
    the index hash of an entry, insertion into the claims tree (giving
    the new root), and proof generation against a state. *)
Variable H3 : list Z -> list Z -> list Z -> list Z.
Variable IdGenesisFromIdenState : list Z -> list Z.
Variable HIndex : Entry -> list Z.
Variable Add : list Z -> Entry -> outcome (list Z).
Variable GenerateProofs : list Z -> Entry -> outcome (list Z * list Z).

Definition IdenStateFromRoots (clr rer ror : list Z) : list Z := H3 clr rer ror.

(** Modelled from the spec: [state()], the hash of the three roots
    (section 3, identity state). *)
Definition state (iss : Issuer) : list Z :=
  IdenStateFromRoots (claimsRoot iss) (revocationsRoot iss) (rootsRoot iss).

Fixpoint addClaims (root : list Z) (cs : list Entry) : outcome (list Z) :=
  match cs with
  | [] => Ok root
  | c :: rest =>
      match Add root c with
      | Ok r => addClaims r rest
      | Err e => Err e
      | Panic => Panic
      end
  end.

(** Modelled from the spec: [New] (section 4.5).  The three trees start empty, the initial claims go into the
    claims tree, the identifier is derived from
    [IdenStateFromRoots(claimsRoot, 0, 0)] and that genesis state seeds
    the log. *)
Definition New (initialClaims : list Entry) : outcome Issuer :=
  match addClaims HashZero initialClaims with
  | Ok clr =>
      let genesis := IdenStateFromRoots clr HashZero HashZero in
      Ok {| ID := IdGenesisFromIdenState genesis;
            claimsRoot := clr;
            revocationsRoot := HashZero;
            rootsRoot := HashZero;
            idenStateList := [genesis];
            idenStateOnChain := HashZero;
            idenStatePending := HashZero;
            claimToState :=
              list_to_map (map (fun c => (HIndex c, O)) initialClaims) |}
  | Err e => Err e
  | Panic => Panic
  end.

(** Modelled from the spec: [IssueClaim] (section 4.5).  The claim enters the claims tree and is recorded with
    the index of the next state of the log. *)
Definition IssueClaim (iss : Issuer) (c : Entry) : outcome unit * Issuer :=
  match Add (claimsRoot iss) c with
  | Ok r =>
      (Ok tt,
       {| ID := ID iss;
          claimsRoot := r;
          revocationsRoot := revocationsRoot iss;
          rootsRoot := rootsRoot iss;
          idenStateList := idenStateList iss;
          idenStateOnChain := idenStateOnChain iss;
          idenStatePending := idenStatePending iss;
          claimToState :=
            <[HIndex c := length (idenStateList iss)]> (claimToState iss) |})
  | Err e => (Err e, iss)
  | Panic => (Panic, iss)
  end.

(** Modelled from the spec: [SyncIdenStatePublic] (section 4.5).  The
    registry's state for the issuer's identifier is compared with the
    pending state first and with the on-chain state next; any other
    answer is [UnexpectedOnChainState]. *)
Definition SyncIdenStatePublic (getState : list Z -> outcome (list Z))
    (iss : Issuer) : outcome unit * Issuer :=
  match getState (ID iss) with
  | Err e => (Err e, iss)
  | Panic => (Panic, iss)
  | Ok onChain =>
      if bool_decide (onChain = idenStatePending iss) then
        (Ok tt,
         {| ID := ID iss;
            claimsRoot := claimsRoot iss;
            revocationsRoot := revocationsRoot iss;
            rootsRoot := rootsRoot iss;
            idenStateList := idenStateList iss;
            idenStateOnChain := idenStatePending iss;
            idenStatePending := HashZero;
            claimToState := claimToState iss |})
      else if bool_decide (onChain = idenStateOnChain iss) then (Ok tt, iss)
      else (Err ErrUnexpectedOnChainState, iss)
  end.

(** Modelled from the spec: [GenCredentialExistence] (section 4.5).
    The claim's state index is looked up; the on-chain state must not
    be zero and the claim's state index must not exceed the index of
    the on-chain state; the proofs are then built against that
    state. *)
Definition GenCredentialExistence (iss : Issuer) (claim : Entry)
    : outcome CredentialExistence :=
  match claimToState iss !! HIndex claim with
  | None => Err ErrNotFound
  | Some stateIndex =>
      if bool_decide (idenStateOnChain iss = HashZero)
      then Err ErrIdenStateOnChainZero
      else
        match indexOf (idenStateOnChain iss) (idenStateList iss) with
        | None => Err ErrNotFound
        | Some k =>
            if (stateIndex <=? k)%nat then
              match GenerateProofs (idenStateOnChain iss) claim with
              | Ok prf =>
                  Ok {| credId := ID iss;
                        credIdenState := idenStateOnChain iss;
                        credClaim := claim;
                        credProofs := prf |}
              | Err e => Err e
              | Panic => Panic
              end
            else Err ErrClaimNotFoundStateOnChain
        end
  end.

End Collaborators.





End Issuer.
Export Issuer.

(** ** Auxiliary notions for the publisher *)

Module PublisherSpec.

(** The cursor the publisher keeps under [cacheidx]: one byte, zero or
    below the capacity. *)
Definition cursorInv (c : Config) (s : gmap (list Z) (list Z)) : Prop :=
  exists x, s !! dbKeyCacheIdx = Some [x] /\ 0 <= x /\ (x = 0 \/ x < CacheLen c).

(** The store after a committed [Publish] whose cursor was [x]: the writes
    of the transaction, in the order the code issues them. *)
Definition published (c : Config) (x : Z)
    (idenState claimsRoot revocationsRoot rootsRoot rotBlob retBlob : list Z)
    (s : gmap (list Z) (list Z)) : gmap (list Z) (list Z) :=
  <[slotKey dbKeyRevocationsTree x := retBlob]>
    (<[slotKey dbKeyRevocationsRoot x := revocationsRoot]>
      (<[slotKey dbKeyRootsTree x := rotBlob]>
        (<[slotKey dbKeyRootsRoot x := rootsRoot]>
          (<[slotKey dbKeyClaimsRoot x := claimsRoot]>
            (<[slotKey dbKeyIdenState x := idenState]>
              (<[dbKeyCacheIdx := [add8 x 1 mod CacheLen c]]> s)))))).

End PublisherSpec.
Export PublisherSpec.

(** ** Concrete publishers and stores used to run the code *)

Module Examples.

(** A tree whose dump from [r] is [r] followed by one tag byte. *)
Definition demoTree : MerkleTree := {| DumpTree := fun r => Ok (r ++ [7]) |}.

(** A tree whose dump always fails. *)
Definition brokenTree : MerkleTree := {| DumpTree := fun _ => Err (ErrCollab 1) |}.

Definition demoPub (n : Z) : IdenPubOffChainWriteHttp :=
  {| rootsTree := demoTree; revocationsTree := demoTree; cfg := {| CacheLen := n |} |}.

(** A 32-byte hash filled with one byte. *)
Definition hashOf (b : Z) : list Z := repeat b ElemBytesLen.

(** The store of a new publisher of capacity [n] over an empty storage. *)
Definition newStore (n : Z) : gmap (list Z) (list Z) :=
  snd (NewIdenPubOffChainWriteHttp noFaults {| CacheLen := n |} ∅ demoTree demoTree).

(** Publishing with state [hashOf b] and roots [hashOf (b+1..b+3)]. *)
Definition publishDemo (n b : Z) (s : gmap (list Z) (list Z))
    : gmap (list Z) (list Z) :=
  snd (Publish noFaults (demoPub n) s
         (hashOf b) (hashOf (b + 1)) (hashOf (b + 2)) (hashOf (b + 3))).

(** What a slot written by [publishDemo n b] holds. *)
Definition demoData (b : Z) : PublicData :=
  {| IdenState := hashOf b;
     ClaimsTreeRoot := hashOf (b + 1);
     RootsTreeRoot := hashOf (b + 3);
     RootsTree := hashOf (b + 3) ++ [7];
     RevocationsTreeRoot := hashOf (b + 2);
     RevocationsTree := hashOf (b + 2) ++ [7] |}.

(** The scalar field of BabyJubJub's base curve and the tag used to run the
    codec on a concrete claim. *)
Definition demoQ : Z :=
  21888242871839275222246405745257275088548364400416034343698204186575808495617.

Definition demoClaim : ClaimAuthorizeKSignBabyJub :=
  {| Version := 9999;
     Sign := Sign (NewClaimAuthorizeKSignBabyJub demoQ {| X := demoQ - 5; Y := 1234567 |} 5678);
     Ay := 1234567;
     RevocationNonce := 5678 |}.

(** Stand-ins for the issuer's collaborators: concatenation for the hash
    of the three roots, a 31-byte prefix for the identifier, the bytes of
    the first index slot for the index hash, a tree root that absorbs the
    index hash, and empty proofs. *)
Definition demoH3 (clr rer ror : list Z) : list Z := clr ++ rer ++ ror.
Definition demoIdGenesis (st : list Z) : list Z := take 31 st.
Definition demoHIndex (e : Entry) : list Z := bigEndian ElemBytesLen (i_0 e).
Definition demoAdd (root : list Z) (e : Entry) : outcome (list Z) :=
  Ok (take ElemBytesLen (demoHIndex e ++ root)).
Definition demoProofs (st : list Z) (e : Entry) : outcome (list Z * list Z) :=
  Ok ([], []).

Definition demoEntry : Entry := ClaimEntry 1 demoClaim.

(** An issuer whose log holds two states, the first on chain, the second
    pending, and one claim first included in the second. *)
Definition demoIssuer : Issuer :=
  {| ID := demoIdGenesis (hashOf 1);
     claimsRoot := hashOf 5;
     revocationsRoot := HashZero;
     rootsRoot := hashOf 6;
     idenStateList := [hashOf 1; hashOf 2];
     idenStateOnChain := hashOf 1;
     idenStatePending := hashOf 2;
     claimToState := {[ demoHIndex demoEntry := 1%nat ]} |}.

(** The issuer as [TestIssuerCredential] has it after the first publish and
    sync: the log holds the genesis state and the published one, which is
    on chain; the first claim was recorded with index 1. *)
Definition syncedIssuer : Issuer :=
  {| ID := demoIdGenesis (hashOf 1);
     claimsRoot := hashOf 5;
     revocationsRoot := HashZero;
     rootsRoot := hashOf 6;
     idenStateList := [hashOf 1; hashOf 2];
     idenStateOnChain := hashOf 2;
     idenStatePending := HashZero;
     claimToState := {[ demoHIndex demoEntry := 1%nat ]} |}.

(** The same issuer before the registry confirmed anything. *)
Definition unsyncedIssuer : Issuer :=
  {| ID := demoIdGenesis (hashOf 1);
     claimsRoot := hashOf 5;
     revocationsRoot := HashZero;
     rootsRoot := hashOf 6;
     idenStateList := [hashOf 1; hashOf 2];
     idenStateOnChain := HashZero;
     idenStatePending := hashOf 2;
     claimToState := {[ demoHIndex demoEntry := 1%nat ]} |}.

(** A second claim, with another version in its index. *)
Definition demoEntry2 : Entry :=
  ClaimEntry 1 {| Version := 7; Sign := false; Ay := 42; RevocationNonce := 0 |}.

End Examples.
Export Examples.

(** ** Loading a publisher and runs of [Publish] *)

Module PublisherRuns.

(** [db.LoadJSON(storage, key, &cfg)], the mirror of [StoreJSON]: the
    bytes under the key, decoded by [json.Unmarshal]; a key that is absent
    gives the storage's error.  Package db is not among the sources; the
    decoder is the library's and is taken as a parameter. *)
Definition LoadJSON (Unmarshal : list Z -> outcome Config)
    (storage : gmap (list Z) (list Z)) (key : list Z) : outcome Config :=
  match storage !! key with
  | Some bs => Unmarshal bs
  | None => Err ErrNotFound
  end.

(** [LoadIdenPubOffChainWriteHttp]: the configuration comes from the
    storage, the trees from the caller; nothing is written. *)
Definition LoadIdenPubOffChainWriteHttp (Unmarshal : list Z -> outcome Config)
    (storage : gmap (list Z) (list Z)) (rot ret : MerkleTree)
    : outcome IdenPubOffChainWriteHttp :=
  match LoadJSON Unmarshal storage dbKeyConfig with
  | Ok c => Ok {| rootsTree := rot; revocationsTree := ret; cfg := c |}
  | Err e => Err e
  | Panic => Panic
  end.

(** One call of [Publish]: the faults of the storage at that moment and the
    four hashes passed. *)
Record PublishCall : Type := {
  callFaults : Faults;
  callIdenState : list Z;
  callClaimsRoot : list Z;
  callRevocationsRoot : list Z;
  callRootsRoot : list Z
}.

(** The store a call leaves behind. *)
Definition publishCall (i : IdenPubOffChainWriteHttp)
    (s : gmap (list Z) (list Z)) (c : PublishCall) : gmap (list Z) (list Z) :=
  snd (Publish (callFaults c) i s (callIdenState c) (callClaimsRoot c)
         (callRevocationsRoot c) (callRootsRoot c)).

(** A sequence of calls, one after the other. *)
Definition publishAll (i : IdenPubOffChainWriteHttp)
    (s : gmap (list Z) (list Z)) (calls : list PublishCall)
    : gmap (list Z) (list Z) :=
  fold_left (publishCall i) calls s.

(** A call that goes through: the storage opens and commits the
    transaction and both trees dump. *)
Definition callGoesThrough (i : IdenPubOffChainWriteHttp) (c : PublishCall) : Prop :=
  newTxErr (callFaults c) = None /\ commitErr (callFaults c) = None /\
  (exists rotB, DumpTree (rootsTree i) (callRootsRoot c) = Ok rotB) /\
  (exists retB, DumpTree (revocationsTree i) (callRevocationsRoot c) = Ok retB).

(** The four hashes of a call are 32 bytes long, as [*merkletree.Hash]
    makes them. *)
Definition callHashes (c : PublishCall) : Prop :=
  is_hash (callIdenState c) /\ is_hash (callClaimsRoot c) /\
  is_hash (callRevocationsRoot c) /\ is_hash (callRootsRoot c).

(** Slot [y] of the store holds the six records of the call. *)
Definition slotHolds (i : IdenPubOffChainWriteHttp)
    (s : gmap (list Z) (list Z)) (y : Z) (c : PublishCall) : Prop :=
  s !! slotKey dbKeyIdenState y = Some (callIdenState c) /\
  s !! slotKey dbKeyClaimsRoot y = Some (callClaimsRoot c) /\
  s !! slotKey dbKeyRootsRoot y = Some (callRootsRoot c) /\
  s !! slotKey dbKeyRevocationsRoot y = Some (callRevocationsRoot c) /\
  Ok <$> s !! slotKey dbKeyRootsTree y
    = Some (DumpTree (rootsTree i) (callRootsRoot c)) /\
  Ok <$> s !! slotKey dbKeyRevocationsTree y
    = Some (DumpTree (revocationsTree i) (callRevocationsRoot c)).

(** The record [GetPublicData] builds from the slot of a call. *)
Definition callData (c : PublishCall) (rotB retB : list Z) : PublicData :=
  {| IdenState := callIdenState c;
     ClaimsTreeRoot := callClaimsRoot c;
     RootsTreeRoot := callRootsRoot c;
     RootsTree := rotB;
     RevocationsTreeRoot := callRevocationsRoot c;
     RevocationsTree := retB |}.

(** The six key families of a slot. *)
Definition slotFamilies : list (list Z) :=
  [dbKeyIdenState; dbKeyClaimsRoot; dbKeyRootsRoot; dbKeyRootsTree;
   dbKeyRevocationsRoot; dbKeyRevocationsTree].

(** The four hash families of the slots. *)
Definition hashKeys : list (list Z) :=
  [dbKeyIdenState; dbKeyClaimsRoot; dbKeyRootsRoot; dbKeyRevocationsRoot].

(** Every hash a slot holds is 32 bytes long. *)
Definition hashesWellSized (s : gmap (list Z) (list Z)) : Prop :=
  forall key y v, key ∈ hashKeys -> s !! slotKey key y = Some v -> is_hash v.

(** A decoder for the objects [jsonConfig] prints: the field name, then
    one to three decimal digits of a byte. *)
Definition parseDigits (ds : list Z) : option Z :=
  match ds with
  | [] => None
  | _ =>
      fold_left (fun acc d =>
                   match acc with
                   | Some n => if (48 <=? d) && (d <=? 57) then Some (10 * n + (d - 48)) else None
                   | None => None
                   end) ds (Some 0)
  end.

Definition parseConfig (bs : list Z) : outcome Config :=
  let pre := [123; 34] ++ str "CacheLen" ++ [34; 58] in
  if bool_decide (take (length pre) bs = pre) then
    match reverse (drop (length pre) bs) with
    | 125 :: rds =>
        match parseDigits (reverse rds) with
        | Some n => if n <=? 255 then Ok {| CacheLen := n |} else Err (ErrCollab 2)
        | None => Err (ErrCollab 2)
        end
    | _ => Err (ErrCollab 2)
    end
  else Err (ErrCollab 2).

(** Calls used to run the code: hashes filled with one byte, no fault. *)
Definition demoCall (b : Z) : PublishCall :=
  {| callFaults := noFaults;
     callIdenState := hashOf b;
     callClaimsRoot := hashOf (b + 1);
     callRevocationsRoot := hashOf (b + 2);
     callRootsRoot := hashOf (b + 3) |}.

End PublisherRuns.
Export PublisherRuns.

(** ** The Ethereum client: [eth/client2.go] *)

Module Eth.

(** Errors of the client: its own, those of the node and of the contract
    binding, and an error wrapped by [fmt.Errorf] with a prefix. *)
Inductive ethError : Type :=
  | ErrAccountNil
  | errReceiptStatusFailed
  | errReceiptNotRecieved
  | ErrNode (tag : Z)
  | ErrWrap (prefix : string) (e : ethError).

(** A Go result [(value, error)] with exactly one of the two set. *)
Inductive result (A : Type) : Type :=
  | Done (a : A)
  | Failed (e : ethError).
Arguments Done {A} a.
Arguments Failed {A} e.

(** The fields of [bind.TransactOpts] that [CallAuth] sets, and the
    sender. *)
Record TransactOpts : Type := {
  From : list Z;
  Nonce : option Z;
  Value : option Z;
  GasLimit : Z;
  GasPrice : option Z
}.

(** [*ethclient.Client]: what the node answers. *)
Record EthClient : Type := {
  PendingNonceAt : list Z -> result Z;
  SuggestGasPrice : result Z
}.

(** [*ethkeystore.KeyStore] through [bind.NewKeyStoreTransactor]. *)
Record KeyStore : Type := {
  NewKeyStoreTransactor : list Z -> result TransactOpts
}.

(** [Client2]; the account is the address of [accounts.Account], or nil. *)
Record Client2 : Type := {
  client : EthClient;
  account : option (list Z);
  ks : KeyStore
}.

(** [int64(x)] of a [uint64]. *)
Definition int64 (x : Z) : Z := if x <? 2 ^ 63 then x else x - 2 ^ 64.

Definition CallAuth {A : Type} (c : Client2)
    (fn : EthClient -> TransactOpts -> result A) : result A :=
  match account c with
  | None => Failed ErrAccountNil
  | Some addr =>
      match PendingNonceAt (client c) addr with
      | Failed e => Failed e
      | Done nonce =>
          match SuggestGasPrice (client c) with
          | Failed e => Failed e
          | Done gasPrice =>
              match NewKeyStoreTransactor (ks c) addr with
              | Failed e => Failed e
              | Done auth =>
                  fn (client c)
                     {| From := From auth;
                        Nonce := Some (int64 nonce);
                        Value := Some 0;
                        GasLimit := 300000;
                        GasPrice := Some gasPrice |}
              end
          end
      end
  end.

(** [types.Receipt], by its status. *)
Record Receipt : Type := { Status : Z }.

Definition ReceiptStatusFailed : Z := 0.

(** The polling loop of [WaitReceipt]:
    [for receipt == nil && time.Since(start) < c.ReceiptTimeout].  The
    clock and the node are the environment: [polls] lists what
    [TransactionReceipt] answers at each poll that starts before the
    timeout. *)
Fixpoint pollReceipt (polls : list (option Receipt * option ethError))
    (receipt : option Receipt) (err : option ethError)
    : option Receipt * option ethError :=
  match receipt with
  | Some _ => (receipt, err)
  | None =>
      match polls with
      | [] => (receipt, err)
      | (r, e) :: rest => pollReceipt rest r e
      end
  end.

Definition WaitReceipt (polls : list (option Receipt * option ethError))
    : option Receipt * option ethError :=
  let '(receipt, err) := pollReceipt polls None None in
  match receipt with
  | Some rc =>
      if Status rc =? ReceiptStatusFailed
      then (receipt, Some errReceiptStatusFailed)
      else (receipt, err)
  | None => (receipt, Some errReceiptNotRecieved)
  end.

End Eth.
Export Eth.

(** ** The on-chain registry client: [components/idenpubonchain] *)

Module IdenPubOnChainM.

(** [copy(dst[:], src)] into a fresh [[32]byte]. *)
Definition copy32 (src : list Z) : list Z :=
  take 32 src ++ repeat 0 (32 - length (take 32 src))%nat.

(** [splitSignature]: the signature is a [[64]byte]. *)
Definition splitSignature (signature : list Z) : list Z * list Z :=
  (copy32 (take 32 signature), copy32 (drop 32 signature)).

(** The binding of the IdenStates contract ([contracts.State], generated
    code outside the sources), by what its calls answer. *)
Record State : Type := {
  contractSetState :
    TransactOpts -> list Z -> list Z -> list Z -> list Z -> list Z -> list Z
    -> result (list Z);
  contractInitState :
    TransactOpts -> list Z -> list Z -> list Z -> list Z -> list Z -> list Z -> list Z
    -> result (list Z)
}.

(** [IdenPubOnChain]: the client, and [contracts.NewState] applied to the
    address of the contract. *)
Record IdenPubOnChain : Type := {
  onchainClient : Client2;
  NewState : EthClient -> result State
}.

Definition setStatePrefix : string :=
  "Failed setting identity state in the Smart Contract (setState)".
Definition initStatePrefix : string :=
  "Failed initalizating identity state in the Smart Contract (initState)".

Definition SetState (ip : IdenPubOnChain)
    (id newState kOpProof stateTransitionProof signature : list Z)
    : result (list Z) :=
  match CallAuth (onchainClient ip) (fun c auth =>
          match NewState ip c with
          | Failed e => Failed e
          | Done idenStates =>
              let '(sigR8, sigS) := splitSignature signature in
              contractSetState idenStates auth newState id kOpProof
                stateTransitionProof sigR8 sigS
          end) with
  | Failed e => Failed (ErrWrap setStatePrefix e)
  | Done tx => Done tx
  end.

Definition InitState (ip : IdenPubOnChain)
    (id genesisState newState kOpProof stateTransitionProof signature : list Z)
    : result (list Z) :=
  match CallAuth (onchainClient ip) (fun c auth =>
          match NewState ip c with
          | Failed e => Failed e
          | Done idenStates =>
              let '(sigR8, sigS) := splitSignature signature in
              contractInitState idenStates auth newState genesisState id kOpProof
                stateTransitionProof sigR8 sigS
          end) with
  | Failed e => Failed (ErrWrap initStatePrefix e)
  | Done tx => Done tx
  end.

End IdenPubOnChainM.
Export IdenPubOnChainM.

(** ** Parameter decoding of the relay endpoint: [cmd/relay/endpoint/id.go] *)

Module Endpoint.

(** What a decoding helper hands back: the bytes, or nil after [fail] was
    called with a message. *)
Inductive decoded : Type :=
  | Decoded (data : list Z)
  | Rejected (msg : string).

(** [encoding/hex]: the value of a digit, upper or lower case. *)
Definition fromHexChar (c : ascii) : option Z :=
  let n := Z.of_N (N_of_ascii c) in
  if (48 <=? n) && (n <=? 57) then Some (n - 48)
  else if (97 <=? n) && (n <=? 102) then Some (n - 97 + 10)
  else if (65 <=? n) && (n <=? 70) then Some (n - 65 + 10)
  else None.

(** [hex.DecodeString]: pairs of digits; a bad digit or an odd length is an
    error. *)
Fixpoint DecodeString (s : list ascii) : option (list Z) :=
  match s with
  | [] => Some []
  | [_] => None
  | a :: b :: rest =>
      match fromHexChar a, fromHexChar b with
      | Some x, Some y =>
          match DecodeString rest with
          | Some bs => Some (16 * x + y :: bs)
          | None => None
          end
      | _, _ => None
      end
  end.

Definition decodeHexParamOrFail (param hexvalue : string) : decoded :=
  if negb (String.prefix "0x" hexvalue) then
    Rejected (String.append "bad " (String.append param " parameter"))
  else if String.eqb hexvalue "0x0" then Decoded []
  else
    match DecodeString (drop 2 (list_ascii_of_string hexvalue)) with
    | Some data => Decoded data
    | None => Rejected "bad data parameter"
    end.

End Endpoint.
Export Endpoint.

(** ** Concrete clients used to run the registry code *)

Module EthExamples.

(** A node with nonce 7 and gas price 20, a key store that signs for any
    address, and a contract that answers with the first half of the
    signature as transaction. *)
Definition demoNode : EthClient :=
  {| PendingNonceAt := fun _ => Done 7; SuggestGasPrice := Done 20 |}.

Definition demoKeyStore : KeyStore :=
  {| NewKeyStoreTransactor := fun addr =>
       Done {| From := addr; Nonce := None; Value := None; GasLimit := 0;
               GasPrice := None |} |}.

Definition demoContract : State :=
  {| contractSetState := fun _ _ _ _ _ sigR8 _ => Done sigR8;
     contractInitState := fun _ _ _ _ _ _ sigR8 _ => Done sigR8 |}.

Definition demoOnChain (acc : option (list Z)) : IdenPubOnChain :=
  {| onchainClient := {| client := demoNode; account := acc; ks := demoKeyStore |};
     NewState := fun _ => Done demoContract |}.

End EthExamples.
Export EthExamples.

(** * Properties of the publisher *)

Section PublisherFacts.

Implicit Types (s : gmap (list Z) (list Z)) (tx : Tx) (i : IdenPubOffChainWriteHttp).

Lemma NewTx_inv fl s tx :
  NewTx fl s = Ok tx -> newTxErr fl = None /\ tx = {| tx_base := s; tx_kv := ∅ |}.
Proof.
  unfold NewTx. destruct (newTxErr fl); [discriminate|]. intros [= <-]. auto.
Qed.

Lemma nextCacheIdx_ok i tx x rest :
  Get tx dbKeyCacheIdx = Ok (x :: rest) ->
  CacheLen (cfg i) <> 0 ->
  nextCacheIdx i tx
  = (Ok x, Put tx dbKeyCacheIdx [add8 x 1 mod CacheLen (cfg i)]).
Proof.
  intros Hg Hc. unfold nextCacheIdx, tx_bind, tx_get, tx_lift, tx_put, tx_ret.
  rewrite Hg. simpl. unfold mod8.
  destruct (Z.eqb_spec (CacheLen (cfg i)) 0); [contradiction|]. reflexivity.
Qed.

Lemma nextCacheIdx_zero i tx x rest :
  Get tx dbKeyCacheIdx = Ok (x :: rest) ->
  CacheLen (cfg i) = 0 ->
  nextCacheIdx i tx = (Panic, tx).
Proof.
  intros Hg Hc. unfold nextCacheIdx, tx_bind, tx_get, tx_lift.
  rewrite Hg. simpl. unfold mod8. rewrite Hc. reflexivity.
Qed.

Lemma prevCacheIdx_ok i tx x rest :
  Get tx dbKeyCacheIdx = Ok (x :: rest) ->
  CacheLen (cfg i) <> 0 ->
  prevCacheIdx i tx = (Ok (sub8 x 1 mod CacheLen (cfg i)), tx).
Proof.
  intros Hg Hc. unfold prevCacheIdx, tx_bind, tx_get, tx_lift.
  rewrite Hg. simpl. unfold mod8.
  destruct (Z.eqb_spec (CacheLen (cfg i)) 0); [contradiction|]. reflexivity.
Qed.

Lemma prevCacheIdx_zero i tx x rest :
  Get tx dbKeyCacheIdx = Ok (x :: rest) ->
  CacheLen (cfg i) = 0 ->
  prevCacheIdx i tx = (Panic, tx).
Proof.
  intros Hg Hc. unfold prevCacheIdx, tx_bind, tx_get, tx_lift.
  rewrite Hg. simpl. unfold mod8. rewrite Hc. reflexivity.
Qed.

End PublisherFacts.

Section PublishFacts.

Implicit Types (s : gmap (list Z) (list Z)) (tx : Tx) (i : IdenPubOffChainWriteHttp).

Lemma putSlot_run x a b c d e f tx :
  putSlot x a b c d e f tx
  = (Ok tt,
     Put (Put (Put (Put (Put (Put tx
       (slotKey dbKeyIdenState x) a)
       (slotKey dbKeyClaimsRoot x) b)
       (slotKey dbKeyRootsRoot x) c)
       (slotKey dbKeyRootsTree x) d)
       (slotKey dbKeyRevocationsRoot x) e)
       (slotKey dbKeyRevocationsTree x) f).
Proof. reflexivity. Qed.

Lemma add8_small x : 0 <= x < 255 -> add8 x 1 = x + 1.
Proof. intros H. unfold add8. apply Z.mod_small. lia. Qed.

(** What [Publish] does once both dumps and [NewTx] went through and the
    cursor could be read. *)
Lemma Publish_run fl i s a b c d x rest rotB retB :
  DumpTree (rootsTree i) d = Ok rotB ->
  DumpTree (revocationsTree i) c = Ok retB ->
  newTxErr fl = None ->
  s !! dbKeyCacheIdx = Some (x :: rest) ->
  Publish fl i s a b c d =
    if CacheLen (cfg i) =? 0 then (Panic, s)
    else (Ok tt,
          match commitErr fl with
          | Some _ => s
          | None => published (cfg i) x a b c d rotB retB s
          end).
Proof.
  intros Hrot Hret Hnew Hcur. unfold Publish. rewrite Hrot, Hret.
  unfold NewTx. rewrite Hnew.
  set (tx0 := {| tx_base := s; tx_kv := ∅ |}).
  assert (Hg : Get tx0 dbKeyCacheIdx = Ok (x :: rest)).
  { unfold Get, tx0. simpl. rewrite lookup_empty, Hcur. reflexivity. }
  destruct (Z.eqb_spec (CacheLen (cfg i)) 0) as [Hz|Hnz].
  - rewrite (nextCacheIdx_zero _ _ _ _ Hg Hz).
    unfold publishDeferred, Commit, Close. destruct (commitErr fl); simpl; [reflexivity|].
    unfold tx0. simpl. rewrite (left_id_L ∅ (∪)). reflexivity.
  - rewrite (nextCacheIdx_ok _ _ _ _ Hg Hnz). rewrite putSlot_run.
    unfold publishDeferred, Commit, Close. destruct (commitErr fl); simpl; [reflexivity|].
    unfold published. f_equal.
    rewrite <- !insert_union_l. rewrite (left_id_L ∅ (∪)). reflexivity.
Qed.

(** Whenever [Publish] does not return nil, the store is as before. *)
Lemma Publish_failed_unchanged fl i s a b c d out s' :
  Publish fl i s a b c d = (out, s') -> out <> Ok tt -> s' = s.
Proof.
  unfold Publish.
  destruct (DumpTree (rootsTree i) d); try (intros [= <- <-]; reflexivity).
  destruct (DumpTree (revocationsTree i) c); try (intros [= <- <-]; reflexivity).
  destruct (NewTx fl s) as [tx| |] eqn:Hn; try (intros [= <- <-]; reflexivity).
  apply NewTx_inv in Hn as [_ ->].
  unfold nextCacheIdx, tx_bind, tx_get, tx_lift, tx_put, tx_ret.
  assert (Hempty : forall o, publishDeferred fl o {| tx_base := s; tx_kv := ∅ |} = s).
  { intros o. unfold publishDeferred, Commit, Close. simpl.
    destruct o, (commitErr fl); simpl; try reflexivity.
    apply (left_id_L ∅ (∪)). }
  destruct (Get _ dbKeyCacheIdx) as [[|x rest]| |]; cbn -[publishDeferred];
    try (rewrite Hempty; intros [= <- <-]; intros; reflexivity).
  unfold mod8. destruct (CacheLen (cfg i) =? 0); cbn -[publishDeferred].
  - rewrite Hempty. intros [= <- <-] _. reflexivity.
  - intros [= <- <-] Hne. contradiction.
Qed.

(** [Publish] keeps the cursor invariant, whatever it returns. *)
Lemma Publish_cursorInv fl i s a b c d :
  0 <= CacheLen (cfg i) <= 255 ->
  cursorInv (cfg i) s ->
  cursorInv (cfg i) (snd (Publish fl i s a b c d)).
Proof.
  intros Hc Hinv.
  destruct (Publish fl i s a b c d) as [out s'] eqn:HP. simpl.
  assert (Hdec : out = Ok tt \/ out <> Ok tt).
  { destruct out as [[]| |]; [left; reflexivity|right; discriminate..]. }
  destruct Hdec as [->|Hne].
  2:{ rewrite (Publish_failed_unchanged _ _ _ _ _ _ _ _ _ HP Hne). exact Hinv. }
  destruct Hinv as (x & Hx & Hx0 & Hxc).
  destruct (DumpTree (rootsTree i) d) as [rotB| |] eqn:Hr;
    try (unfold Publish in HP; rewrite Hr in HP; discriminate).
  destruct (DumpTree (revocationsTree i) c) as [retB| |] eqn:Hv;
    try (unfold Publish in HP; rewrite Hr, Hv in HP; discriminate).
  destruct (newTxErr fl) as [e|] eqn:Hn.
  { unfold Publish, NewTx in HP. rewrite Hr, Hv, Hn in HP. discriminate. }
  rewrite (Publish_run fl i s a b c d x [] rotB retB Hr Hv Hn Hx) in HP.
  destruct (Z.eqb_spec (CacheLen (cfg i)) 0); [discriminate|].
  injection HP as <-. destruct (commitErr fl).
  { exists x. auto. }
  exists (add8 x 1 mod CacheLen (cfg i)). split.
  - unfold published. rewrite !lookup_insert_ne by (vm_compute; discriminate).
    apply lookup_insert_eq.
  - pose proof (Z.mod_pos_bound (add8 x 1) (CacheLen (cfg i))). lia.
Qed.

End PublishFacts.

Section PublisherClaims.

Implicit Types (s : gmap (list Z) (list Z)) (tx : Tx) (i : IdenPubOffChainWriteHttp).

(** What the constructor does when the store takes the transaction. *)
Lemma New_run fl c s rot ret :
  newTxErr fl = None ->
  NewIdenPubOffChainWriteHttp fl c s rot ret =
    match commitErr fl with
    | Some e => (Err e, s)
    | None => (Ok {| rootsTree := rot; revocationsTree := ret; cfg := c |},
               <[dbKeyConfig := jsonConfig c]> (<[dbKeyCacheIdx := [0]]> s))
    end.
Proof.
  intros Hn. unfold NewIdenPubOffChainWriteHttp, NewTx. rewrite Hn.
  unfold initCacheIdx, StoreJSON, tx_bind, tx_put, Commit, Put. simpl.
  destruct (commitErr fl); [reflexivity|].
  rewrite <- !insert_union_l, (left_id_L ∅ (∪)). reflexivity.
Qed.

(** A new publisher starts with the cursor at zero. *)
Lemma New_cursorInv fl c s rot ret i s' :
  NewIdenPubOffChainWriteHttp fl c s rot ret = (Ok i, s') ->
  cfg i = c /\ cursorInv c s'.
Proof.
  destruct (newTxErr fl) as [e|] eqn:Hn.
  { unfold NewIdenPubOffChainWriteHttp, NewTx. rewrite Hn. discriminate. }
  rewrite (New_run _ _ _ _ _ Hn). destruct (commitErr fl); [discriminate|].
  intros [= <- <-]. split; [reflexivity|].
  exists 0. split; [|lia].
  rewrite lookup_insert_ne by (vm_compute; discriminate).
  apply lookup_insert_eq.
Qed.

(** C2.  Every [Publish] works in one transaction: whenever a step fails
    (a dump, opening the transaction, reading the cursor, the commit) the
    store is left exactly as it was, and otherwise the store gains, in one
    commit, the six records of the slot named by the cursor together with
    the cursor advanced to [(cursor + 1) mod CacheLen]. *)
Theorem Publish_single_transaction fl i s idenState claimsRoot revocationsRoot rootsRoot :
  0 <= CacheLen (cfg i) <= 255 ->
  cursorInv (cfg i) s ->
  exists x,
    s !! dbKeyCacheIdx = Some [x] /\
    let out := fst (Publish fl i s idenState claimsRoot revocationsRoot rootsRoot) in
    let s' := snd (Publish fl i s idenState claimsRoot revocationsRoot rootsRoot) in
    (out <> Ok tt -> s' = s) /\
    (commitErr fl <> None -> s' = s) /\
    (out = Ok tt -> commitErr fl = None ->
     exists rotBlob retBlob,
       DumpTree (rootsTree i) rootsRoot = Ok rotBlob /\
       DumpTree (revocationsTree i) revocationsRoot = Ok retBlob /\
       s' = <[slotKey dbKeyRevocationsTree x := retBlob]>
             (<[slotKey dbKeyRevocationsRoot x := revocationsRoot]>
               (<[slotKey dbKeyRootsTree x := rotBlob]>
                 (<[slotKey dbKeyRootsRoot x := rootsRoot]>
                   (<[slotKey dbKeyClaimsRoot x := claimsRoot]>
                     (<[slotKey dbKeyIdenState x := idenState]>
                       (<[dbKeyCacheIdx := [(x + 1) mod CacheLen (cfg i)]]> s))))))).
Proof.
  intros Hc (x & Hx & Hx0 & Hxc). exists x. split; [exact Hx|].
  destruct (Publish fl i s idenState claimsRoot revocationsRoot rootsRoot)
    as [out s'] eqn:HP. simpl.
  assert (Hfail : out <> Ok tt -> s' = s).
  { intros Hne. exact (Publish_failed_unchanged _ _ _ _ _ _ _ _ _ HP Hne). }
  split; [exact Hfail|].
  assert (Hcases :
    out <> Ok tt \/
    exists rotBlob retBlob,
      DumpTree (rootsTree i) rootsRoot = Ok rotBlob /\
      DumpTree (revocationsTree i) revocationsRoot = Ok retBlob /\
      s' = match commitErr fl with
           | Some _ => s
           | None => published (cfg i) x idenState claimsRoot revocationsRoot
                       rootsRoot rotBlob retBlob s
           end).
  { destruct (DumpTree (rootsTree i) rootsRoot) as [rotB| |] eqn:Hr;
      try (left; unfold Publish in HP; rewrite Hr in HP;
           injection HP as <- _; discriminate).
    destruct (DumpTree (revocationsTree i) revocationsRoot) as [retB| |] eqn:Hv;
      try (left; unfold Publish in HP; rewrite Hr, Hv in HP;
           injection HP as <- _; discriminate).
    destruct (newTxErr fl) as [e|] eqn:Hn.
    { left. unfold Publish, NewTx in HP. rewrite Hr, Hv, Hn in HP.
      injection HP as <- _. discriminate. }
    rewrite (Publish_run fl i s _ _ _ _ x [] rotB retB Hr Hv Hn Hx) in HP.
    destruct (Z.eqb_spec (CacheLen (cfg i)) 0).
    { left. injection HP as <- _. discriminate. }
    right. exists rotB, retB. injection HP as _ <-. auto. }
  split.
  - intros Hce. destruct Hcases as [Hne|(rotB & retB & _ & _ & ->)]; [auto|].
    destruct (commitErr fl); [reflexivity|contradiction].
  - intros -> Hce. destruct Hcases as [Hne|(rotB & retB & Hr & Hv & ->)];
      [contradiction|].
    exists rotB, retB. rewrite Hce. unfold published.
    rewrite add8_small by lia. auto.
Qed.

Lemma Publish_single_transaction_witness :
  0 <= CacheLen (cfg (demoPub 3)) <= 255 /\
  cursorInv (cfg (demoPub 3)) (newStore 3) /\
  exists x,
    newStore 3 !! dbKeyCacheIdx = Some [x] /\
    let out := fst (Publish noFaults (demoPub 3) (newStore 3)
                      (hashOf 1) (hashOf 2) (hashOf 3) (hashOf 4)) in
    let s' := snd (Publish noFaults (demoPub 3) (newStore 3)
                     (hashOf 1) (hashOf 2) (hashOf 3) (hashOf 4)) in
    (out <> Ok tt -> s' = newStore 3) /\
    (commitErr noFaults <> None -> s' = newStore 3) /\
    (out = Ok tt -> commitErr noFaults = None ->
     exists rotBlob retBlob,
       DumpTree (rootsTree (demoPub 3)) (hashOf 4) = Ok rotBlob /\
       DumpTree (revocationsTree (demoPub 3)) (hashOf 3) = Ok retBlob /\
       s' = <[slotKey dbKeyRevocationsTree x := retBlob]>
             (<[slotKey dbKeyRevocationsRoot x := hashOf 3]>
               (<[slotKey dbKeyRootsTree x := rotBlob]>
                 (<[slotKey dbKeyRootsRoot x := hashOf 4]>
                   (<[slotKey dbKeyClaimsRoot x := hashOf 2]>
                     (<[slotKey dbKeyIdenState x := hashOf 1]>
                       (<[dbKeyCacheIdx := [(x + 1) mod CacheLen (cfg (demoPub 3))]]>
                          (newStore 3)))))))).
Proof.
  assert (H1 : 0 <= CacheLen (cfg (demoPub 3)) <= 255) by (simpl; lia).
  assert (H2 : cursorInv (cfg (demoPub 3)) (newStore 3)).
  { exists 0. split; [vm_compute; reflexivity|]. split; [lia|left; reflexivity]. }
  split; [exact H1|]. split; [exact H2|].
  exact (Publish_single_transaction noFaults (demoPub 3) (newStore 3)
           (hashOf 1) (hashOf 2) (hashOf 3) (hashOf 4) H1 H2).
Defined.

End PublisherClaims.

Section SlotFacts.

Implicit Types (s : gmap (list Z) (list Z)) (tx : Tx) (i : IdenPubOffChainWriteHttp).

Lemma slice32_hash h : is_hash h -> slice32 h = Ok h.
Proof.
  unfold is_hash, slice32. intros H. rewrite H.
  rewrite Nat.ltb_irrefl. f_equal. apply take_ge. rewrite H. reflexivity.
Qed.

Lemma readSlot_ok tx x a b c d e f :
  Get tx (slotKey dbKeyIdenState x) = Ok a ->
  Get tx (slotKey dbKeyClaimsRoot x) = Ok b ->
  Get tx (slotKey dbKeyRootsRoot x) = Ok c ->
  Get tx (slotKey dbKeyRootsTree x) = Ok d ->
  Get tx (slotKey dbKeyRevocationsRoot x) = Ok e ->
  Get tx (slotKey dbKeyRevocationsTree x) = Ok f ->
  is_hash a -> is_hash b -> is_hash c -> is_hash e ->
  readSlot x tx
  = (Ok {| IdenState := a; ClaimsTreeRoot := b; RootsTreeRoot := c;
           RootsTree := d; RevocationsTreeRoot := e; RevocationsTree := f |}, tx).
Proof.
  intros Ha Hb Hc Hd He Hf La Lb Lc Le.
  unfold readSlot, tx_bind, tx_get, tx_lift, tx_ret.
  rewrite Ha, Hb, Hc, Hd, He, Hf.
  rewrite (slice32_hash _ La), (slice32_hash _ Lb), (slice32_hash _ Lc),
    (slice32_hash _ Le).
  reflexivity.
Qed.

(** The keys of one slot and the cursor key are pairwise different. *)
Ltac key_neq :=
  let H := fresh in
  intros H; cbv [slotKey dbKeyCacheIdx dbKeyIdenState dbKeyClaimsRoot dbKeyRootsRoot
                 dbKeyRevocationsRoot dbKeyRootsTree dbKeyRevocationsTree
                 str list_ascii_of_string map N_of_ascii Z.of_N N.add N.mul
                 Pos.add Pos.mul Pos.succ app] in H;
  discriminate H.

Lemma published_lookup c x a b rr ror rotB retB s :
  let s' := published c x a b rr ror rotB retB s in
  s' !! dbKeyCacheIdx = Some [add8 x 1 mod CacheLen c] /\
  s' !! slotKey dbKeyIdenState x = Some a /\
  s' !! slotKey dbKeyClaimsRoot x = Some b /\
  s' !! slotKey dbKeyRootsRoot x = Some ror /\
  s' !! slotKey dbKeyRootsTree x = Some rotB /\
  s' !! slotKey dbKeyRevocationsRoot x = Some rr /\
  s' !! slotKey dbKeyRevocationsTree x = Some retB.
Proof.
  unfold published. cbv zeta.
  repeat split;
    repeat (first [ apply lookup_insert_eq
                  | rewrite lookup_insert_ne by key_neq ]).
Qed.

(** Keys outside the slot and the cursor are untouched. *)
Lemma published_other c x a b rr ror rotB retB s k :
  k <> dbKeyCacheIdx ->
  (forall key, k <> slotKey key x) ->
  published c x a b rr ror rotB retB s !! k = s !! k.
Proof.
  intros Hk Hs. unfold published.
  rewrite !lookup_insert_ne by (first [apply not_eq_sym, Hs | apply not_eq_sym, Hk]).
  reflexivity.
Qed.

End SlotFacts.

Section RoundTrip.

Implicit Types (s : gmap (list Z) (list Z)) (tx : Tx) (i : IdenPubOffChainWriteHttp).

Lemma Get_fresh s k v :
  s !! k = Some v -> Get {| tx_base := s; tx_kv := ∅ |} k = Ok v.
Proof. intros H. unfold Get. simpl. rewrite lookup_empty, H. reflexivity. Qed.

(** A [Publish] that returned nil got both dumps, opened its transaction
    and found a non-zero capacity. *)
Lemma Publish_ok_inv fl i s a b c d s' x rest :
  s !! dbKeyCacheIdx = Some (x :: rest) ->
  Publish fl i s a b c d = (Ok tt, s') ->
  exists rotB retB,
    DumpTree (rootsTree i) d = Ok rotB /\
    DumpTree (revocationsTree i) c = Ok retB /\
    newTxErr fl = None /\
    CacheLen (cfg i) <> 0 /\
    s' = match commitErr fl with
         | Some _ => s
         | None => published (cfg i) x a b c d rotB retB s
         end.
Proof.
  intros Hx HP.
  destruct (DumpTree (rootsTree i) d) as [rotB| |] eqn:Hr;
    try (unfold Publish in HP; rewrite Hr in HP; discriminate).
  destruct (DumpTree (revocationsTree i) c) as [retB| |] eqn:Hv;
    try (unfold Publish in HP; rewrite Hr, Hv in HP; discriminate).
  destruct (newTxErr fl) as [e|] eqn:Hn.
  { unfold Publish, NewTx in HP. rewrite Hr, Hv, Hn in HP. discriminate. }
  rewrite (Publish_run fl i s _ _ _ _ x rest rotB retB Hr Hv Hn Hx) in HP.
  destruct (Z.eqb_spec (CacheLen (cfg i)) 0); [discriminate|].
  exists rotB, retB. injection HP as <-. auto.
Qed.

(** [GetPublicData(nil)] reads the slot [prevCacheIdx] computes. *)
Lemma GetPublicData_nil_run fl i s x rest :
  newTxErr fl = None ->
  s !! dbKeyCacheIdx = Some (x :: rest) ->
  CacheLen (cfg i) <> 0 ->
  GetPublicData fl i s None
  = fst (readSlot (sub8 x 1 mod CacheLen (cfg i)) {| tx_base := s; tx_kv := ∅ |}).
Proof.
  intros Hn Hx Hc. unfold GetPublicData, NewTx. rewrite Hn.
  unfold selectCacheIdx, tx_bind at 1.
  rewrite (prevCacheIdx_ok i _ x rest (Get_fresh _ _ _ Hx) Hc). reflexivity.
Qed.

(** C5.  Publisher round trip at capacity one: once [Publish] has returned
    nil and its commit went through, [GetPublicData(nil)] returns the
    identity state and the three roots that were passed to [Publish]
    (so [RootsTreeRoot] is the roots tree's root key when that was the
    argument), with the two dumps taken by [Publish]. *)
Theorem Publish_GetPublicData_roundtrip fl fl' i s s'
    idenState claimsRoot revocationsRoot rootsRoot :
  CacheLen (cfg i) = 1 ->
  cursorInv (cfg i) s ->
  is_hash idenState -> is_hash claimsRoot ->
  is_hash revocationsRoot -> is_hash rootsRoot ->
  commitErr fl = None ->
  newTxErr fl' = None ->
  Publish fl i s idenState claimsRoot revocationsRoot rootsRoot = (Ok tt, s') ->
  exists pd,
    GetPublicData fl' i s' None = Ok pd /\
    IdenState pd = idenState /\
    ClaimsTreeRoot pd = claimsRoot /\
    RootsTreeRoot pd = rootsRoot /\
    RevocationsTreeRoot pd = revocationsRoot /\
    DumpTree (rootsTree i) rootsRoot = Ok (RootsTree pd) /\
    DumpTree (revocationsTree i) revocationsRoot = Ok (RevocationsTree pd).
Proof.
  intros HC (x & Hx & Hx0 & Hxc) La Lb Lc Ld Hce Hn' HP.
  assert (x = 0) as -> by lia.
  destruct (Publish_ok_inv _ _ _ _ _ _ _ _ _ _ Hx HP)
    as (rotB & retB & Hr & Hv & _ & Hnz & ->).
  rewrite Hce.
  pose proof (published_lookup (cfg i) 0 idenState claimsRoot revocationsRoot
                rootsRoot rotB retB s) as (Hcur & H1 & H2 & H3 & H4 & H5 & H6).
  rewrite (GetPublicData_nil_run fl' i _ _ [] Hn' Hcur Hnz).
  rewrite HC. replace (sub8 (add8 0 1 mod 1) 1 mod 1) with 0 by reflexivity.
  rewrite (readSlot_ok _ 0 _ _ _ _ _ _
             (Get_fresh _ _ _ H1) (Get_fresh _ _ _ H2) (Get_fresh _ _ _ H3)
             (Get_fresh _ _ _ H4) (Get_fresh _ _ _ H5) (Get_fresh _ _ _ H6)
             La Lb Ld Lc).
  eexists. split; [reflexivity|]. simpl. auto 10.
Qed.

Lemma Publish_GetPublicData_roundtrip_witness :
  exists pd,
    GetPublicData noFaults (demoPub 1) (publishDemo 1 10 (newStore 1)) None = Ok pd /\
    IdenState pd = hashOf 10 /\
    ClaimsTreeRoot pd = hashOf 11 /\
    RootsTreeRoot pd = hashOf 13 /\
    RevocationsTreeRoot pd = hashOf 12 /\
    DumpTree (rootsTree (demoPub 1)) (hashOf 13) = Ok (RootsTree pd) /\
    DumpTree (revocationsTree (demoPub 1)) (hashOf 12) = Ok (RevocationsTree pd).
Proof.
  apply (Publish_GetPublicData_roundtrip noFaults noFaults (demoPub 1) (newStore 1)
           (publishDemo 1 10 (newStore 1))
           (hashOf 10) (hashOf 11) (hashOf 12) (hashOf 13)).
  - reflexivity.
  - exists 0. split; [vm_compute; reflexivity|]. split; [lia|left; reflexivity].
  - reflexivity.
  - reflexivity.
  - reflexivity.
  - reflexivity.
  - reflexivity.
  - reflexivity.
  - vm_compute. reflexivity.
Defined.

End RoundTrip.

Section CursorArithmetic.

Implicit Types (s : gmap (list Z) (list Z)) (tx : Tx) (i : IdenPubOffChainWriteHttp).

(** Away from zero the byte subtraction does not wrap and
    [prevCacheIdx] is [(x - 1) mod C]. *)
Lemma prevCacheIdx_positive_cursor i tx x rest :
  1 <= x <= 255 ->
  Get tx dbKeyCacheIdx = Ok (x :: rest) ->
  CacheLen (cfg i) <> 0 ->
  prevCacheIdx i tx = (Ok ((x - 1) mod CacheLen (cfg i)), tx).
Proof.
  intros Hx Hg Hc. rewrite (prevCacheIdx_ok i tx x rest Hg Hc).
  unfold sub8. rewrite (Z.mod_small (x - 1) 256) by lia. reflexivity.
Qed.

(** At zero the subtraction wraps to 255 before the remainder is taken. *)
Lemma prevCacheIdx_zero_cursor i tx rest :
  Get tx dbKeyCacheIdx = Ok (0 :: rest) ->
  CacheLen (cfg i) <> 0 ->
  prevCacheIdx i tx = (Ok (255 mod CacheLen (cfg i)), tx).
Proof. intros Hg Hc. rewrite (prevCacheIdx_ok i tx 0 rest Hg Hc). reflexivity. Qed.

(** The slot chosen for a non-nil query: the scan decides between
    [ErrIdenStateNotFound] and going on, and the slot then read is the
    one numbered zero. *)
Lemma GetPublicData_query_run fl i s q :
  newTxErr fl = None ->
  GetPublicData fl i s (Some q) =
    let tx := {| tx_base := s; tx_kv := ∅ |} in
    match scanIdenState tx q (Z.to_nat (CacheLen (cfg i))) 0 with
    | Err e => Err e
    | Panic => Panic
    | Ok idx =>
        if idx =? CacheLen (cfg i) then Err ErrIdenStateNotFound
        else fst (readSlot 0 tx)
    end.
Proof.
  intros Hn. unfold GetPublicData, NewTx. rewrite Hn.
  unfold selectCacheIdx, tx_bind at 1. cbv zeta.
  destruct (scanIdenState _ q _ 0) as [idx|e|]; try reflexivity.
  destruct (idx =? CacheLen (cfg i)); reflexivity.
Qed.

(** With a zero capacity a [Publish] whose tree dump fails returns that
    error: it never gets to the cursor. *)
Lemma Publish_dump_error_before_cursor :
  Publish noFaults
    {| rootsTree := brokenTree; revocationsTree := demoTree; cfg := {| CacheLen := 0 |} |}
    (newStore 0) (hashOf 1) (hashOf 2) (hashOf 3) (hashOf 4)
  = (Err (ErrCollab 1), newStore 0).
Proof. reflexivity. Qed.

(** At cursor zero the slot of [prevCacheIdx], [255 mod C], is the ring
    predecessor [C - 1] exactly for the capacities that divide 256. *)
Lemma prevCacheIdx_zero_agrees_iff C :
  1 <= C <= 255 -> (255 mod C = (0 - 1) mod C <-> 256 mod C = 0).
Proof.
  intros HC.
  assert (Hm : (0 - 1) mod C = C - 1).
  { symmetry. apply (Z.mod_unique_pos _ _ (-1)); lia. }
  rewrite Hm. pose proof (Z.div_mod 255 C ltac:(lia)) as H255.
  pose proof (Z.mod_pos_bound 255 C ltac:(lia)) as Hb.
  split.
  - intros He. symmetry. apply (Z.mod_unique_pos _ _ (255 / C + 1)); lia.
  - intros H0. pose proof (Z.div_mod 256 C ltac:(lia)) as H256.
    rewrite H0 in H256.
    symmetry. apply (Z.mod_unique_pos _ _ (256 / C - 1)); lia.
Qed.

(** The scan over slots that are all written: it stops at the first slot
    holding the query, and runs to the end when no slot holds it. *)
Lemma scanIdenState_no_match tx q n idx :
  0 <= idx -> idx + Z.of_nat n <= 255 ->
  (forall j, idx <= j < idx + Z.of_nat n ->
     exists v, Get tx (slotKey dbKeyIdenState j) = Ok v /\ v <> q) ->
  scanIdenState tx q n idx = Ok (idx + Z.of_nat n).
Proof.
  revert idx. induction n as [|n IH]; intros idx H0 Hn Hall.
  - simpl. f_equal. lia.
  - cbn [scanIdenState].
    destruct (Hall idx ltac:(lia)) as (v & Hv & Hne). rewrite Hv.
    rewrite bool_decide_eq_false_2 by congruence.
    assert (Ha : add8 idx 1 = idx + 1) by (unfold add8; apply Z.mod_small; lia).
    rewrite Ha, IH; [f_equal; lia|lia|lia|].
    intros j Hj. apply Hall. lia.
Qed.

Lemma scanIdenState_first_match tx q n idx m :
  0 <= idx -> idx + Z.of_nat n <= 255 ->
  idx <= m < idx + Z.of_nat n ->
  Get tx (slotKey dbKeyIdenState m) = Ok q ->
  (forall j, idx <= j < m ->
     exists v, Get tx (slotKey dbKeyIdenState j) = Ok v /\ v <> q) ->
  scanIdenState tx q n idx = Ok m.
Proof.
  revert idx. induction n as [|n IH]; intros idx H0 Hn Hm Hq Hall; [lia|].
  cbn [scanIdenState].
  destruct (Z.eq_dec idx m) as [->|Hne].
  - rewrite Hq, bool_decide_eq_true_2 by reflexivity. reflexivity.
  - destruct (Hall idx ltac:(lia)) as (v & Hv & Hvq). rewrite Hv.
    rewrite bool_decide_eq_false_2 by congruence.
    assert (Ha : add8 idx 1 = idx + 1) by (unfold add8; apply Z.mod_small; lia).
    rewrite Ha. apply IH; [lia|lia|lia|exact Hq|].
    intros j Hj. apply Hall. lia.
Qed.

(** On a full cache, a non-nil query gets [ErrIdenStateNotFound] when no
    slot holds it; when slot [m] is the first to hold it, the call goes on
    to read slot 0. *)
Lemma GetPublicData_query_full fl i s q :
  newTxErr fl = None ->
  1 <= CacheLen (cfg i) <= 255 ->
  let tx := {| tx_base := s; tx_kv := ∅ |} in
  ((forall j, 0 <= j < CacheLen (cfg i) ->
      exists v, Get tx (slotKey dbKeyIdenState j) = Ok v /\ v <> q) ->
   GetPublicData fl i s (Some q) = Err ErrIdenStateNotFound) /\
  (forall m,
     0 <= m < CacheLen (cfg i) ->
     Get tx (slotKey dbKeyIdenState m) = Ok q ->
     (forall j, 0 <= j < m ->
        exists v, Get tx (slotKey dbKeyIdenState j) = Ok v /\ v <> q) ->
     GetPublicData fl i s (Some q) = fst (readSlot 0 tx)).
Proof.
  intros Hn HC tx. split.
  - intros Hall. rewrite (GetPublicData_query_run fl i s q Hn). cbv zeta.
    fold tx. rewrite (scanIdenState_no_match tx q _ 0) by
      (rewrite ?Z2Nat.id by lia; first [lia | intros j Hj; apply Hall; lia]).
    rewrite Z2Nat.id by lia. simpl. rewrite Z.eqb_refl. reflexivity.
  - intros m Hm Hq Hall. rewrite (GetPublicData_query_run fl i s q Hn). cbv zeta.
    fold tx. rewrite (scanIdenState_first_match tx q _ 0 m) by
      (rewrite ?Z2Nat.id by lia; first [lia | exact Hq | exact Hall]).
    destruct (Z.eqb_spec m (CacheLen (cfg i))); [lia|reflexivity].
Qed.

(** C10.  The constructor takes any configuration as it is, a zero
    [CacheLen] included.  With [CacheLen = 0] a [Publish] that got its two
    dumps, and [GetPublicData(nil)], reach the remainder by zero of
    [nextCacheIdx] / [prevCacheIdx] and panic (the store stays as it
    was); with [CacheLen >= 1] the same calls get through the cursor
    arithmetic. *)
Theorem CacheLen_zero_not_total fl c s rot ret
    idenState claimsRoot revocationsRoot rootsRoot rotBlob retBlob :
  newTxErr fl = None ->
  commitErr fl = None ->
  DumpTree rot rootsRoot = Ok rotBlob ->
  DumpTree ret revocationsRoot = Ok retBlob ->
  exists i s0,
    NewIdenPubOffChainWriteHttp fl c s rot ret = (Ok i, s0) /\
    cfg i = c /\
    (CacheLen c = 0 ->
       Publish fl i s0 idenState claimsRoot revocationsRoot rootsRoot = (Panic, s0) /\
       GetPublicData fl i s0 None = Panic) /\
    (CacheLen c <> 0 ->
       fst (Publish fl i s0 idenState claimsRoot revocationsRoot rootsRoot) = Ok tt /\
       fst (prevCacheIdx i {| tx_base := s0; tx_kv := ∅ |})
         = Ok (255 mod CacheLen c)).
Proof.
  intros Hn Hce Hr Hv.
  rewrite (New_run fl c s rot ret Hn), Hce.
  eexists _, _. split; [reflexivity|]. split; [reflexivity|].
  set (i := {| rootsTree := rot; revocationsTree := ret; cfg := c |}).
  set (s0 := <[dbKeyConfig := jsonConfig c]> (<[dbKeyCacheIdx := [0]]> s)).
  assert (Hcur : s0 !! dbKeyCacheIdx = Some [0]).
  { unfold s0. rewrite lookup_insert_ne by (vm_compute; discriminate).
    apply lookup_insert_eq. }
  split.
  - intros Hz. split.
    + rewrite (Publish_run fl i s0 _ _ _ _ 0 [] rotBlob retBlob Hr Hv Hn Hcur).
      simpl. rewrite Hz. reflexivity.
    + unfold GetPublicData, NewTx. rewrite Hn.
      unfold selectCacheIdx, tx_bind at 1.
      rewrite (prevCacheIdx_zero i _ 0 [] (Get_fresh _ _ _ Hcur) Hz). reflexivity.
  - intros Hnz. split.
    + rewrite (Publish_run fl i s0 _ _ _ _ 0 [] rotBlob retBlob Hr Hv Hn Hcur).
      simpl. destruct (Z.eqb_spec (CacheLen c) 0); [contradiction|]. reflexivity.
    + rewrite (prevCacheIdx_zero_cursor i _ [] (Get_fresh _ _ _ Hcur) Hnz).
      reflexivity.
Qed.

Lemma CacheLen_zero_not_total_witness :
  exists i s0,
    NewIdenPubOffChainWriteHttp noFaults {| CacheLen := 0 |} ∅ demoTree demoTree
      = (Ok i, s0) /\
    cfg i = {| CacheLen := 0 |} /\
    (CacheLen {| CacheLen := 0 |} = 0 ->
       Publish noFaults i s0 (hashOf 1) (hashOf 2) (hashOf 3) (hashOf 4) = (Panic, s0) /\
       GetPublicData noFaults i s0 None = Panic) /\
    (CacheLen {| CacheLen := 0 |} <> 0 ->
       fst (Publish noFaults i s0 (hashOf 1) (hashOf 2) (hashOf 3) (hashOf 4)) = Ok tt /\
       fst (prevCacheIdx i {| tx_base := s0; tx_kv := ∅ |})
         = Ok (255 mod CacheLen {| CacheLen := 0 |})).
Proof.
  apply (CacheLen_zero_not_total noFaults {| CacheLen := 0 |} ∅ demoTree demoTree
           (hashOf 1) (hashOf 2) (hashOf 3) (hashOf 4)
           (hashOf 4 ++ [7]) (hashOf 3 ++ [7])); reflexivity.
Defined.

(** C1.  Capacity three, three publishes: the cursor is back at zero and
    the most recently written slot is [(0 - 1) mod 3 = 2]; the byte
    subtraction of [prevCacheIdx] wraps to 255 and [255 mod 3 = 0], so
    [GetPublicData(nil)] returns the oldest record, that of slot 0. *)
Theorem prevCacheIdx_wraps_at_zero :
  let s3 := publishDemo 3 30 (publishDemo 3 20 (publishDemo 3 10 (newStore 3))) in
  let tx := {| tx_base := s3; tx_kv := ∅ |} in
  s3 !! dbKeyCacheIdx = Some [0] /\
  fst (prevCacheIdx (demoPub 3) tx) = Ok 0 /\
  (0 - 1) mod 3 = 2 /\
  fst (readSlot 2 tx) = Ok (demoData 30) /\
  GetPublicData noFaults (demoPub 3) s3 None = Ok (demoData 10).
Proof. vm_compute. repeat split; reflexivity. Qed.

(** C7.  Capacity two, two publishes: the query for the second state
    matches at slot 1, and the record returned is the one of slot 0,
    whose identity state is not the one asked for. *)
Theorem GetPublicData_query_returns_slot_zero :
  let s2 := publishDemo 2 20 (publishDemo 2 10 (newStore 2)) in
  let tx := {| tx_base := s2; tx_kv := ∅ |} in
  scanIdenState tx (hashOf 20) 2 0 = Ok 1 /\
  fst (readSlot 1 tx) = Ok (demoData 20) /\
  GetPublicData noFaults (demoPub 2) s2 (Some (hashOf 20)) = Ok (demoData 10) /\
  IdenState (demoData 10) <> hashOf 20.
Proof. vm_compute. repeat split; try reflexivity. discriminate. Qed.

(** A cache that is not full yet: the scan meets a slot never written and
    returns the storage's error for the absent key. *)
Lemma GetPublicData_query_partial_cache :
  GetPublicData noFaults (demoPub 2) (publishDemo 2 10 (newStore 2))
    (Some (hashOf 20)) = Err ErrNotFound.
Proof. vm_compute. reflexivity. Qed.

End CursorArithmetic.

(** * Properties of the bitmap helpers *)

Section BitmapFacts.

Lemma bitMask_pow2 n : bitMask n = 2 ^ (7 - n mod 8).
Proof.
  unfold bitMask. pose proof (Z.mod_pos_bound n 8 ltac:(lia)) as Hk.
  set (k := n mod 8) in *.
  assert (Hc : k = 0 \/ k = 1 \/ k = 2 \/ k = 3 \/ k = 4 \/ k = 5 \/ k = 6 \/ k = 7)
    by lia.
  destruct Hc as [->|[->|[->|[->|[->|[->|[->| ->]]]]]]]; reflexivity.
Qed.

Lemma land_pow2_testbit b m :
  0 <= m -> negb (Z.land b (2 ^ m) =? 0) = Z.testbit b m.
Proof.
  intros Hm.
  assert (Hl : Z.land b (2 ^ m) = if Z.testbit b m then 2 ^ m else 0).
  { apply Z.bits_inj'. intros k Hk. rewrite Z.land_spec, Z.pow2_bits_eqb by lia.
    destruct (Z.eqb_spec m k) as [->|Hne].
    - destruct (Z.testbit b k); simpl.
      + rewrite Z.pow2_bits_true by lia. reflexivity.
      + rewrite Z.bits_0. reflexivity.
    - rewrite andb_false_r. destruct (Z.testbit b m).
      + rewrite Z.pow2_bits_false by lia. reflexivity.
      + rewrite Z.bits_0. reflexivity. }
  rewrite Hl. destruct (Z.testbit b m); [|reflexivity].
  destruct (Z.eqb_spec (2 ^ m) 0) as [H0|]; [|reflexivity].
  pose proof (Z.pow_pos_nonneg 2 m ltac:(lia) Hm). lia.
Qed.

Lemma testBitBigEndian_spec buf n b :
  buf !! Z.to_nat (n / 8) = Some b ->
  testBitBigEndian buf n = Ok (Z.testbit b (7 - n mod 8)).
Proof.
  intros Hb. unfold testBitBigEndian. rewrite Hb, bitMask_pow2.
  pose proof (Z.mod_pos_bound n 8 ltac:(lia)).
  rewrite land_pow2_testbit by lia. reflexivity.
Qed.

Lemma setBitBigEndian_spec buf n b :
  buf !! Z.to_nat (n / 8) = Some b ->
  setBitBigEndian buf n
  = Ok (<[Z.to_nat (n / 8) := Z.lor b (2 ^ (7 - n mod 8))]> buf).
Proof.
  intros Hb. unfold setBitBigEndian. rewrite Hb, bitMask_pow2. reflexivity.
Qed.

Lemma testBit_after_setBit buf i j b :
  0 <= i -> 0 <= j ->
  buf !! Z.to_nat (i / 8) = Some b ->
  testBitBigEndian (<[Z.to_nat (i / 8) := Z.lor b (2 ^ (7 - i mod 8))]> buf) j
  = if i =? j then Ok true else testBitBigEndian buf j.
Proof.
  intros Hi Hj Hb.
  pose proof (Z.mod_pos_bound i 8 ltac:(lia)) as Hi8.
  pose proof (Z.mod_pos_bound j 8 ltac:(lia)) as Hj8.
  assert (Hlen : (Z.to_nat (i / 8) < length buf)%nat)
    by (apply lookup_lt_is_Some; eauto).
  destruct (Z.eq_dec (i / 8) (j / 8)) as [Heq|Hne].
  - rewrite (testBitBigEndian_spec _ j (Z.lor b (2 ^ (7 - i mod 8)))).
    2:{ rewrite <- Heq. apply list_lookup_insert_eq. exact Hlen. }
    rewrite Z.lor_spec, Z.pow2_bits_eqb by lia.
    destruct (Z.eqb_spec i j) as [->|Hij].
    + rewrite Z.eqb_refl, orb_true_r. reflexivity.
    + assert (i mod 8 <> j mod 8).
      { intros Hm. apply Hij.
        rewrite (Z.div_mod i 8), (Z.div_mod j 8) by lia. lia. }
      destruct (Z.eqb_spec (7 - i mod 8) (7 - j mod 8)); [lia|].
      rewrite orb_false_r. symmetry. apply testBitBigEndian_spec.
      rewrite <- Heq. exact Hb.
  - destruct (Z.eqb_spec i j) as [->|_]; [contradiction|].
    unfold testBitBigEndian. rewrite list_lookup_insert_ne; [reflexivity|].
    pose proof (Z.div_pos i 8 Hi ltac:(lia)).
    pose proof (Z.div_pos j 8 Hj ltac:(lia)). lia.
Qed.

(** C9.  Bit [i] of a buffer is the [(i mod 8)]-th most significant bit of
    byte [i / 8]: testing reads bit [7 - i mod 8] of that byte, setting
    turns that bit on and leaves every other bit as it was.  On the
    all-zero 32-byte buffer, setting bits 7, 8 and 255 gives the bytes
    01 80 00 .. 00 01, and bits 7, 8, 255 then test true, bits 6 and 9
    false. *)
Theorem bitmap_big_endian (buf : list Z) (i b : Z) :
  0 <= i ->
  buf !! Z.to_nat (i / 8) = Some b ->
  testBitBigEndian buf i = Ok (Z.testbit b (7 - i mod 8)) /\
  (exists buf',
     setBitBigEndian buf i = Ok buf' /\
     buf' = <[Z.to_nat (i / 8) := Z.lor b (2 ^ (7 - i mod 8))]> buf /\
     testBitBigEndian buf' i = Ok true /\
     forall j, 0 <= j -> j <> i ->
       testBitBigEndian buf' j = testBitBigEndian buf j) /\
  (exists v,
     testVector = Ok v /\
     v = 1 :: 128 :: repeat 0 29%nat ++ [1] /\
     EncodeToString v
       = "0180000000000000000000000000000000000000000000000000000000000001"%string /\
     testBitBigEndian v 6 = Ok false /\
     testBitBigEndian v 7 = Ok true /\
     testBitBigEndian v 8 = Ok true /\
     testBitBigEndian v 9 = Ok false /\
     testBitBigEndian v 255 = Ok true).
Proof.
  intros Hi Hb. split; [apply testBitBigEndian_spec; exact Hb|]. split.
  - eexists. split; [apply setBitBigEndian_spec; exact Hb|].
    split; [reflexivity|]. split.
    + rewrite (testBit_after_setBit buf i i b Hi Hi Hb), Z.eqb_refl. reflexivity.
    + intros j Hj Hne. rewrite (testBit_after_setBit buf i j b Hi Hj Hb).
      destruct (Z.eqb_spec i j); [congruence|reflexivity].
  - eexists. split; [vm_compute; reflexivity|]. repeat split; reflexivity.
Qed.

Lemma bitmap_big_endian_witness :
  testBitBigEndian (repeat 0 32%nat) 7 = Ok (Z.testbit 0 (7 - 7 mod 8)) /\
  (exists buf',
     setBitBigEndian (repeat 0 32%nat) 7 = Ok buf' /\
     buf' = <[Z.to_nat (7 / 8) := Z.lor 0 (2 ^ (7 - 7 mod 8))]> (repeat 0 32%nat) /\
     testBitBigEndian buf' 7 = Ok true /\
     forall j, 0 <= j -> j <> 7 ->
       testBitBigEndian buf' j = testBitBigEndian (repeat 0 32%nat) j) /\
  (exists v,
     testVector = Ok v /\
     v = 1 :: 128 :: repeat 0 29%nat ++ [1] /\
     EncodeToString v
       = "0180000000000000000000000000000000000000000000000000000000000001"%string /\
     testBitBigEndian v 6 = Ok false /\
     testBitBigEndian v 7 = Ok true /\
     testBitBigEndian v 8 = Ok true /\
     testBitBigEndian v 9 = Ok false /\
     testBitBigEndian v 255 = Ok true).
Proof.
  apply (bitmap_big_endian (repeat 0 32%nat) 7 0); [lia|reflexivity].
Defined.

End BitmapFacts.

(** * Properties of the claim codec *)

Section ClaimFacts.

Variable Q : Z.
Variable T : Z.
Hypothesis T_range : 0 <= T < 2 ^ 64.

Lemma testbit_high x n k :
  0 <= x < 2 ^ n -> n <= k -> Z.testbit x k = false.
Proof.
  intros [Hx0 Hxn] Hk.
  destruct (Z.eq_dec x 0) as [->|Hnz]; [apply Z.bits_0|].
  apply Z.bits_above_log2; [exact Hx0|].
  assert (Z.log2 x < n); [|lia].
  apply Z.log2_lt_pow2; lia.
Qed.

Lemma b2z_range (s : bool) : 0 <= Z.b2z s < 2 ^ 1.
Proof. destruct s; simpl; lia. Qed.

(** The bits of [i_0]: type below 64, version in 64..95, sign at 96. *)
Lemma i_0_bits c k :
  0 <= Version c < 2 ^ 32 -> 0 <= k ->
  Z.testbit (i_0 (ClaimEntry T c)) k
  = if k <? 64 then Z.testbit T k
    else if k <? 96 then Z.testbit (Version c) (k - 64)
    else if k =? 96 then Sign c
    else false.
Proof.
  intros HV Hk. unfold ClaimEntry. simpl.
  rewrite !Z.lor_spec, !Z.shiftl_spec by lia.
  destruct (Z.ltb_spec k 64).
  - rewrite (Z.testbit_neg_r (Version c)), (Z.testbit_neg_r (Z.b2z (Sign c))) by lia.
    rewrite !orb_false_r. reflexivity.
  - rewrite (testbit_high T 64 k) by (auto; lia). simpl.
    destruct (Z.ltb_spec k 96).
    + rewrite (Z.testbit_neg_r (Z.b2z (Sign c))) by lia. apply orb_false_r.
    + rewrite (testbit_high (Version c) 32 (k - 64)) by (auto; lia). simpl.
      destruct (Z.eqb_spec k 96) as [->|Hne].
      * apply Z.b2z_bit0.
      * apply (testbit_high _ 1); [apply b2z_range|lia].
Qed.

Lemma entryType_ClaimEntry c :
  0 <= Version c < 2 ^ 32 -> entryType (ClaimEntry T c) = T.
Proof.
  intros HV. unfold entryType. apply Z.bits_inj'. intros k Hk.
  rewrite Z.land_spec, Z.testbit_ones_nonneg, i_0_bits by lia.
  destruct (Z.ltb_spec k 64).
  - apply andb_true_r.
  - rewrite andb_false_r. symmetry. apply (testbit_high T 64); auto.
Qed.

Lemma FromEntry_ClaimEntry c :
  wellFormed Q c ->
  NewClaimAuthorizeKSignBabyJubFromEntry (ClaimEntry T c) = c.
Proof.
  intros (HV & HN & HA). destruct c as [V S A N]. simpl in HV, HN, HA.
  unfold NewClaimAuthorizeKSignBabyJubFromEntry.
  set (e := ClaimEntry T {| Version := V; Sign := S; Ay := A; RevocationNonce := N |}).
  assert (H1 : Z.land (Z.shiftr (i_0 e) 64) (Z.ones 32) = V).
  { apply Z.bits_inj'. intros k Hk.
    rewrite Z.land_spec, Z.testbit_ones_nonneg, Z.shiftr_spec by lia.
    unfold e. rewrite i_0_bits by (simpl; lia). simpl.
    destruct (Z.ltb_spec (k + 64) 64); [lia|].
    destruct (Z.ltb_spec k 32).
    - destruct (Z.ltb_spec (k + 64) 96); [|lia].
      rewrite andb_true_r. f_equal. lia.
    - rewrite andb_false_r. symmetry. apply (testbit_high V 32); auto. }
  assert (H2 : Z.testbit (i_0 e) 96 = S).
  { unfold e. rewrite i_0_bits by (simpl; lia). reflexivity. }
  assert (H3 : Z.land (v_0 e) (Z.ones 32) = N).
  { unfold e. simpl. rewrite Z.land_ones by lia. apply Z.mod_small. exact HN. }
  rewrite H1, H2, H3. reflexivity.
Qed.

(** The index slot that carries type, version and sign stays below
    [2 ^ 97]. *)
Lemma i_0_bound c :
  0 <= Version c < 2 ^ 32 -> 0 <= i_0 (ClaimEntry T c) < 2 ^ 97.
Proof.
  intros HV.
  assert (Hnn : 0 <= i_0 (ClaimEntry T c)).
  { unfold ClaimEntry. simpl. rewrite !Z.lor_nonneg, !Z.shiftl_nonneg.
    destruct (Sign c); simpl; lia. }
  split; [exact Hnn|].
  assert (Hl : Z.land (i_0 (ClaimEntry T c)) (Z.ones 97) = i_0 (ClaimEntry T c)).
  { apply Z.bits_inj'. intros k Hk.
    rewrite Z.land_spec, Z.testbit_ones_nonneg, i_0_bits by lia.
    destruct (Z.ltb_spec k 97); [apply andb_true_r|].
    destruct (Z.ltb_spec k 64); [lia|]. destruct (Z.ltb_spec k 96); [lia|].
    destruct (Z.eqb_spec k 96); [lia|]. reflexivity. }
  rewrite Z.land_ones in Hl by lia. rewrite <- Hl.
  apply Z.mod_pos_bound. lia.
Qed.

(** A claim built by the constructor, with any 32-bit version set
    afterwards, is well formed. *)
Lemma built_claim_wellFormed pk revNonce version :
  0 <= Y pk < Q -> 0 <= revNonce < 2 ^ 32 -> 0 <= version < 2 ^ 32 ->
  wellFormed Q
    {| Version := version;
       Sign := Sign (NewClaimAuthorizeKSignBabyJub Q pk revNonce);
       Ay := Ay (NewClaimAuthorizeKSignBabyJub Q pk revNonce);
       RevocationNonce := RevocationNonce (NewClaimAuthorizeKSignBabyJub Q pk revNonce) |}.
Proof. intros HY HN HV. unfold wellFormed. simpl. auto. Qed.

(** C6.  Codec round trip of a well-formed [ClaimAuthorizeKSignBabyJub]:
    the type-specific constructor from the entry and the dispatcher both
    give the claim back, re-encoding gives the same entry, byte for byte,
    and the entry is in the field. *)
Theorem claim_codec_roundtrip (c : ClaimAuthorizeKSignBabyJub) :
  2 ^ 253 < Q ->
  wellFormed Q c ->
  NewClaimAuthorizeKSignBabyJubFromEntry (ClaimEntry T c) = c /\
  NewClaimFromEntry T (ClaimEntry T c) = Ok (AuthorizeKSignBabyJub c) /\
  ClaimEntry T (NewClaimAuthorizeKSignBabyJubFromEntry (ClaimEntry T c))
    = ClaimEntry T c /\
  (forall c', NewClaimFromEntry T (ClaimEntry T c) = Ok c' ->
     EntryOf T c' = ClaimEntry T c /\
     EntryBytes (EntryOf T c') = EntryBytes (ClaimEntry T c)) /\
  CheckEntryInField Q (ClaimEntry T c) = true.
Proof.
  intros HQ Hwf. pose proof (FromEntry_ClaimEntry c Hwf) as Hdec.
  destruct Hwf as (HV & HN & HA).
  assert (Hdisp : NewClaimFromEntry T (ClaimEntry T c) = Ok (AuthorizeKSignBabyJub c)).
  { unfold NewClaimFromEntry. rewrite (entryType_ClaimEntry c HV), Z.eqb_refl, Hdec.
    reflexivity. }
  split; [exact Hdec|]. split; [exact Hdisp|]. split; [rewrite Hdec; reflexivity|].
  split.
  - intros c' Hc'. rewrite Hdisp in Hc'. injection Hc' as <-. simpl. auto.
  - pose proof (i_0_bound c HV) as Hb.
    assert (2 ^ 97 < 2 ^ 253) by (apply Z.pow_lt_mono_r; lia).
    unfold CheckEntryInField, slots. cbn [forallb].
    change (i_1 (ClaimEntry T c)) with (Ay c).
    change (v_0 (ClaimEntry T c)) with (RevocationNonce c).
    change (i_2 (ClaimEntry T c)) with 0. change (i_3 (ClaimEntry T c)) with 0.
    change (v_1 (ClaimEntry T c)) with 0. change (v_2 (ClaimEntry T c)) with 0.
    change (v_3 (ClaimEntry T c)) with 0.
    assert (2 ^ 32 < 2 ^ 253) by (apply Z.pow_lt_mono_r; lia).
    repeat (apply andb_true_intro; split);
      first [apply Z.leb_le; lia | apply Z.ltb_lt; lia | reflexivity].
Qed.

End ClaimFacts.

Lemma claim_codec_roundtrip_witness :
  NewClaimAuthorizeKSignBabyJubFromEntry (ClaimEntry 1 demoClaim) = demoClaim /\
  NewClaimFromEntry 1 (ClaimEntry 1 demoClaim) = Ok (AuthorizeKSignBabyJub demoClaim) /\
  ClaimEntry 1 (NewClaimAuthorizeKSignBabyJubFromEntry (ClaimEntry 1 demoClaim))
    = ClaimEntry 1 demoClaim /\
  (forall c', NewClaimFromEntry 1 (ClaimEntry 1 demoClaim) = Ok c' ->
     EntryOf 1 c' = ClaimEntry 1 demoClaim /\
     EntryBytes (EntryOf 1 c') = EntryBytes (ClaimEntry 1 demoClaim)) /\
  CheckEntryInField demoQ (ClaimEntry 1 demoClaim) = true.
Proof.
  apply (claim_codec_roundtrip demoQ 1).
  - lia.
  - unfold demoQ. lia.
  - unfold wellFormed, demoClaim, demoQ. simpl. lia.
Defined.

(** * Properties of the issuer *)

Section IssuerFacts.

Variable H3 : list Z -> list Z -> list Z -> list Z.
Variable IdGenesisFromIdenState : list Z -> list Z.
Variable HIndex : Entry -> list Z.
Variable Add : list Z -> Entry -> outcome (list Z).
Variable GenerateProofs : list Z -> Entry -> outcome (list Z * list Z).

Lemma indexOf_lt h log k : indexOf h log = Some k -> (k < length log)%nat.
Proof.
  revert k. induction log as [|x rest IH]; intros k; simpl; [discriminate|].
  destruct (bool_decide (x = h)).
  - intros [= <-]. lia.
  - destruct (indexOf h rest) as [j|]; [|discriminate].
    intros [= <-]. specialize (IH j eq_refl). lia.
Qed.

(** Whatever the initial claims, a new issuer has an empty revocations
    tree, the identifier of its current state, and a log holding just
    that state. *)
Lemma New_genesis_general cs iss :
  New H3 IdGenesisFromIdenState HIndex Add cs = Ok iss ->
  revocationsRoot iss = HashZero /\
  rootsRoot iss = HashZero /\
  ID iss = IdGenesisFromIdenState (state H3 iss) /\
  idenStateList iss = [state H3 iss] /\
  idenStateOnChain iss = HashZero /\
  idenStatePending iss = HashZero.
Proof.
  unfold New. destruct (addClaims Add HashZero cs); try discriminate.
  intros [= <-]. unfold state. simpl. auto 10.
Qed.


(** C3.  For a claim with a recorded state index, [GenCredentialExistence]
    fails with [ErrIdenStateOnChainZero] when the on-chain state is the
    zero hash, fails with [ErrClaimNotFoundStateOnChain] when the recorded
    index exceeds the index of the on-chain state (as for a claim issued
    after that state was reached), and returns a credential only when the
    on-chain state is set and the recorded index is at most its index. *)
Theorem GenCredentialExistence_gated (iss : Issuer) (claim : Entry) (stateIndex : nat) :
  claimToState iss !! HIndex claim = Some stateIndex ->
  (idenStateOnChain iss = HashZero ->
     GenCredentialExistence HIndex GenerateProofs iss claim
       = Err ErrIdenStateOnChainZero) /\
  (forall k,
     idenStateOnChain iss <> HashZero ->
     indexOf (idenStateOnChain iss) (idenStateList iss) = Some k ->
     (k < stateIndex)%nat ->
     GenCredentialExistence HIndex GenerateProofs iss claim
       = Err ErrClaimNotFoundStateOnChain) /\
  (forall cred,
     GenCredentialExistence HIndex GenerateProofs iss claim = Ok cred ->
     idenStateOnChain iss <> HashZero /\
     exists k,
       indexOf (idenStateOnChain iss) (idenStateList iss) = Some k /\
       (stateIndex <= k)%nat /\
       credIdenState cred = idenStateOnChain iss /\
       credClaim cred = claim) /\
  (forall c iss' k,
     IssueClaim HIndex Add iss c = (Ok tt, iss') ->
     idenStateOnChain iss <> HashZero ->
     indexOf (idenStateOnChain iss) (idenStateList iss) = Some k ->
     GenCredentialExistence HIndex GenerateProofs iss' c
       = Err ErrClaimNotFoundStateOnChain).
Proof.
  intros Hidx. repeat split.
  - intros Hz. unfold GenCredentialExistence. rewrite Hidx.
    rewrite bool_decide_eq_true_2 by exact Hz. reflexivity.
  - intros k Hnz Hk Hlt. unfold GenCredentialExistence. rewrite Hidx.
    rewrite bool_decide_eq_false_2 by exact Hnz. rewrite Hk.
    destruct (Nat.leb_spec stateIndex k); [lia|reflexivity].
  - revert H. unfold GenCredentialExistence. rewrite Hidx.
    destruct (bool_decide_reflect (idenStateOnChain iss = HashZero)); [discriminate|].
    auto.
  - revert H. unfold GenCredentialExistence. rewrite Hidx.
    destruct (bool_decide (idenStateOnChain iss = HashZero)); [discriminate|].
    destruct (indexOf _ _) as [k|]; [|discriminate].
    destruct (Nat.leb_spec stateIndex k); [|discriminate].
    destruct (GenerateProofs _ claim); try discriminate.
    intros [= <-]. exists k. simpl. auto.
  - intros c iss' k HI Hnz Hk. unfold IssueClaim in HI.
    destruct (Add (claimsRoot iss) c); try discriminate.
    injection HI as <-. unfold GenCredentialExistence. simpl.
    rewrite lookup_insert_eq.
    rewrite bool_decide_eq_false_2 by exact Hnz. rewrite Hk.
    pose proof (indexOf_lt _ _ _ Hk).
    destruct (Nat.leb_spec (length (idenStateList iss)) k); [lia|reflexivity].
Qed.







End IssuerFacts.

(** The steps of [TestIssuerPublish] and [TestIssuerCredential] on the
    model: a registry that has nothing yet leaves the pointers alone, the
    registry returning the pending state moves it on chain; the first claim
    is refused while nothing is on chain and proved afterwards, and a claim
    issued after the sync is refused until the next one. *)
Example sync_not_yet_on_chain :
  SyncIdenStatePublic (fun _ => Ok HashZero) unsyncedIssuer = (Ok tt, unsyncedIssuer).
Proof. vm_compute. reflexivity. Qed.

Example sync_on_chain :
  SyncIdenStatePublic (fun _ => Ok (hashOf 2)) unsyncedIssuer = (Ok tt, syncedIssuer).
Proof. vm_compute. reflexivity. Qed.

Example credential_before_sync :
  GenCredentialExistence demoHIndex demoProofs unsyncedIssuer demoEntry
  = Err ErrIdenStateOnChainZero.
Proof. vm_compute. reflexivity. Qed.

Example credential_after_sync :
  GenCredentialExistence demoHIndex demoProofs syncedIssuer demoEntry
  = Ok {| credId := ID syncedIssuer; credIdenState := hashOf 2;
          credClaim := demoEntry; credProofs := ([], []) |}.
Proof. vm_compute. reflexivity. Qed.

Example credential_of_later_claim :
  GenCredentialExistence demoHIndex demoProofs
    (snd (IssueClaim demoHIndex demoAdd syncedIssuer demoEntry2)) demoEntry2
  = Err ErrClaimNotFoundStateOnChain.
Proof. vm_compute. reflexivity. Qed.

Lemma GenCredentialExistence_gated_witness :
  (idenStateOnChain demoIssuer = HashZero ->
     GenCredentialExistence demoHIndex demoProofs demoIssuer demoEntry
       = Err ErrIdenStateOnChainZero) /\
  (forall k,
     idenStateOnChain demoIssuer <> HashZero ->
     indexOf (idenStateOnChain demoIssuer) (idenStateList demoIssuer) = Some k ->
     (k < 1)%nat ->
     GenCredentialExistence demoHIndex demoProofs demoIssuer demoEntry
       = Err ErrClaimNotFoundStateOnChain) /\
  (forall cred,
     GenCredentialExistence demoHIndex demoProofs demoIssuer demoEntry = Ok cred ->
     idenStateOnChain demoIssuer <> HashZero /\
     exists k,
       indexOf (idenStateOnChain demoIssuer) (idenStateList demoIssuer) = Some k /\
       (1 <= k)%nat /\
       credIdenState cred = idenStateOnChain demoIssuer /\
       credClaim cred = demoEntry) /\
  (forall c iss' k,
     IssueClaim demoHIndex demoAdd demoIssuer c = (Ok tt, iss') ->
     idenStateOnChain demoIssuer <> HashZero ->
     indexOf (idenStateOnChain demoIssuer) (idenStateList demoIssuer) = Some k ->
     GenCredentialExistence demoHIndex demoProofs iss' c
       = Err ErrClaimNotFoundStateOnChain).
Proof.
  apply (GenCredentialExistence_gated demoHIndex demoAdd demoProofs
           demoIssuer demoEntry 1%nat).
  vm_compute. reflexivity.
Defined.


(** * Further properties of the publisher *)

Section PublisherRunFacts.

Implicit Types (s : gmap (list Z) (list Z)) (i : IdenPubOffChainWriteHttp).

Lemma slotKey_inj k1 k2 y x : slotKey k1 y = slotKey k2 x -> k1 = k2 /\ y = x.
Proof. unfold slotKey. intros H. apply app_inj_tail in H. exact H. Qed.

Ltac family_cases H :=
  unfold slotFamilies, hashKeys in H;
  repeat (apply elem_of_cons in H; destruct H as [->|H]);
  try (apply elem_of_nil in H; contradiction).

Ltac key_discr :=
  let H := fresh in
  intros H; cbv [slotKey dbKeyConfig dbKeyCacheIdx dbKeyIdenState dbKeyClaimsRoot
                 dbKeyRootsRoot dbKeyRevocationsRoot dbKeyRootsTree
                 dbKeyRevocationsTree str list_ascii_of_string map N_of_ascii
                 Z.of_N N.add N.mul Pos.add Pos.mul Pos.succ app] in H;
  discriminate H.

(** No slot key is the cursor key or the configuration key. *)
Lemma slotKey_not_cursor key y :
  key ∈ slotFamilies -> slotKey key y <> dbKeyCacheIdx /\ slotKey key y <> dbKeyConfig.
Proof. intros H. family_cases H; split; key_discr. Qed.

Lemma hashKeys_slotFamilies key : key ∈ hashKeys -> key ∈ slotFamilies.
Proof. intros H. family_cases H; unfold slotFamilies; set_solver. Qed.

(** What a committed [Publish] leaves alone: every key that is neither the
    cursor nor one of the six keys of the slot written. *)
Lemma published_frame c x a b rr ror rotB retB s k :
  k <> dbKeyCacheIdx ->
  (forall key, key ∈ slotFamilies -> k <> slotKey key x) ->
  published c x a b rr ror rotB retB s !! k = s !! k.
Proof.
  intros Hk Hs. unfold published.
  rewrite !lookup_insert_ne; [reflexivity|..];
    first [ apply not_eq_sym, Hk
          | apply not_eq_sym, Hs; unfold slotFamilies; set_solver ].
Qed.

(** The store a call leaves, in the three ways a call can end. *)
Lemma Publish_store_cases fl i s a b c d x rest :
  s !! dbKeyCacheIdx = Some (x :: rest) ->
  snd (Publish fl i s a b c d) = s \/
  exists rotB retB,
    DumpTree (rootsTree i) d = Ok rotB /\
    DumpTree (revocationsTree i) c = Ok retB /\
    newTxErr fl = None /\ commitErr fl = None /\ CacheLen (cfg i) <> 0 /\
    fst (Publish fl i s a b c d) = Ok tt /\
    snd (Publish fl i s a b c d) = published (cfg i) x a b c d rotB retB s.
Proof.
  intros Hx. destruct (Publish fl i s a b c d) as [out s'] eqn:HP. simpl.
  assert (Hdec : out = Ok tt \/ out <> Ok tt).
  { destruct out as [[]| |]; [left; reflexivity|right; discriminate..]. }
  destruct Hdec as [->|Hne].
  2:{ left. exact (Publish_failed_unchanged _ _ _ _ _ _ _ _ _ HP Hne). }
  destruct (Publish_ok_inv _ _ _ _ _ _ _ _ _ _ Hx HP)
    as (rotB & retB & Hr & Hv & Hn & Hnz & ->).
  destruct (commitErr fl) eqn:Hce; [left; reflexivity|].
  right. exists rotB, retB. auto 10.
Qed.

(** X1.  From the constructor on, whatever the calls of [Publish] and
    whatever fails in them, the cursor under [cacheidx] is one byte that is
    zero or below [CacheLen]. *)
Theorem cursor_stays_in_ring fl c s rot ret i s0 (calls : list PublishCall) :
  0 <= CacheLen c <= 255 ->
  NewIdenPubOffChainWriteHttp fl c s rot ret = (Ok i, s0) ->
  exists x,
    publishAll i s0 calls !! dbKeyCacheIdx = Some [x] /\
    0 <= x /\ (x = 0 \/ x < CacheLen c).
Proof.
  intros Hc HN. destruct (New_cursorInv _ _ _ _ _ _ _ HN) as [Hcfg Hinv].
  assert (Hgen : forall s1, cursorInv (cfg i) s1 -> cursorInv (cfg i) (publishAll i s1 calls)).
  { induction calls as [|call calls IH]; intros s1 H1; [exact H1|].
    unfold publishAll. simpl. apply IH. unfold publishCall.
    apply Publish_cursorInv; [rewrite Hcfg; exact Hc|exact H1]. }
  rewrite <- Hcfg. apply Hgen. rewrite Hcfg. exact Hinv.
Qed.

Lemma cursor_stays_in_ring_witness :
  exists x,
    publishAll (demoPub 3) (newStore 3) [demoCall 10; demoCall 20; demoCall 30; demoCall 40]
      !! dbKeyCacheIdx = Some [x] /\
    0 <= x /\ (x = 0 \/ x < CacheLen {| CacheLen := 3 |}).
Proof.
  apply (cursor_stays_in_ring noFaults {| CacheLen := 3 |} ∅ demoTree demoTree
           (demoPub 3) (newStore 3)).
  - simpl. lia.
  - vm_compute. reflexivity.
Defined.

(** X2.  A call of [Publish] made at cursor [x] leaves the configuration
    and the six records of every other slot exactly as they were, however
    the call ends. *)
Theorem Publish_touches_one_slot fl i s a b c d x rest key y :
  s !! dbKeyCacheIdx = Some (x :: rest) ->
  key ∈ slotFamilies ->
  y <> x ->
  snd (Publish fl i s a b c d) !! slotKey key y = s !! slotKey key y /\
  snd (Publish fl i s a b c d) !! dbKeyConfig = s !! dbKeyConfig.
Proof.
  intros Hx Hkey Hy.
  destruct (Publish_store_cases fl i s a b c d x rest Hx)
    as [->|(rotB & retB & _ & _ & _ & _ & _ & _ & ->)]; [auto|].
  split.
  - apply published_frame.
    + apply (slotKey_not_cursor key y Hkey).
    + intros key' _ He. apply slotKey_inj in He. destruct He as [_ He]. contradiction.
  - apply published_frame.
    + key_discr.
    + intros key' Hk' He. symmetry in He.
      exact (proj2 (slotKey_not_cursor key' x Hk') He).
Qed.

Lemma Publish_touches_one_slot_witness :
  snd (Publish noFaults (demoPub 3) (publishDemo 3 10 (newStore 3))
         (hashOf 20) (hashOf 21) (hashOf 22) (hashOf 23))
    !! slotKey dbKeyIdenState 0
  = publishDemo 3 10 (newStore 3) !! slotKey dbKeyIdenState 0 /\
  snd (Publish noFaults (demoPub 3) (publishDemo 3 10 (newStore 3))
         (hashOf 20) (hashOf 21) (hashOf 22) (hashOf 23))
    !! dbKeyConfig
  = publishDemo 3 10 (newStore 3) !! dbKeyConfig.
Proof.
  apply (Publish_touches_one_slot noFaults (demoPub 3) (publishDemo 3 10 (newStore 3))
           (hashOf 20) (hashOf 21) (hashOf 22) (hashOf 23) 1 [] dbKeyIdenState 0).
  - vm_compute. reflexivity.
  - unfold slotFamilies. set_solver.
  - lia.
Defined.

Lemma publishCall_through i s call x :
  callGoesThrough i call ->
  s !! dbKeyCacheIdx = Some [x] ->
  CacheLen (cfg i) <> 0 ->
  exists rotB retB,
    DumpTree (rootsTree i) (callRootsRoot call) = Ok rotB /\
    DumpTree (revocationsTree i) (callRevocationsRoot call) = Ok retB /\
    publishCall i s call
    = published (cfg i) x (callIdenState call) (callClaimsRoot call)
        (callRevocationsRoot call) (callRootsRoot call) rotB retB s.
Proof.
  intros (Hn & Hce & (rotB & Hr) & (retB & Hv)) Hx Hnz.
  exists rotB, retB. split; [exact Hr|]. split; [exact Hv|].
  unfold publishCall.
  rewrite (Publish_run _ i s _ _ _ _ x [] rotB retB Hr Hv Hn Hx), Hce.
  destruct (Z.eqb_spec (CacheLen (cfg i)) 0); [contradiction|]. reflexivity.
Qed.

Lemma published_slotHolds i s call x rotB retB :
  DumpTree (rootsTree i) (callRootsRoot call) = Ok rotB ->
  DumpTree (revocationsTree i) (callRevocationsRoot call) = Ok retB ->
  slotHolds i
    (published (cfg i) x (callIdenState call) (callClaimsRoot call)
       (callRevocationsRoot call) (callRootsRoot call) rotB retB s) x call.
Proof.
  intros Hr Hv.
  pose proof (published_lookup (cfg i) x (callIdenState call) (callClaimsRoot call)
                (callRevocationsRoot call) (callRootsRoot call) rotB retB s)
    as (_ & H1 & H2 & H3 & H4 & H5 & H6).
  unfold slotHolds. rewrite H1, H2, H3, H4, H5, H6, Hr, Hv. simpl. auto 10.
Qed.

Lemma slotHolds_frame i s call y c x a b rr ror rotB retB :
  y <> x ->
  slotHolds i s y call ->
  slotHolds i (published c x a b rr ror rotB retB s) y call.
Proof.
  intros Hy. unfold slotHolds.
  assert (Hf : forall key, key ∈ slotFamilies ->
            published c x a b rr ror rotB retB s !! slotKey key y = s !! slotKey key y).
  { intros key Hkey. apply published_frame.
    - apply (slotKey_not_cursor key y Hkey).
    - intros key' _ He. apply slotKey_inj in He. destruct He as [_ He]. contradiction. }
  rewrite !Hf by (unfold slotFamilies; set_solver). auto.
Qed.

Lemma mod_distinct_in_window n k C :
  0 < n - k < C -> k mod C <> n mod C.
Proof.
  intros Hw He.
  assert (Hz : (n - k) mod C = 0).
  { rewrite Zminus_mod, He, Z.sub_diag. apply Z.mod_0_l. lia. }
  rewrite Z.mod_small in Hz by lia. lia.
Qed.

(** X3.  The ring: after any number of calls of [Publish] that go through,
    starting with the cursor at zero, the cursor is the number of calls
    modulo [CacheLen], and each of the last [CacheLen] calls has its six
    records in the slot numbered by its position modulo [CacheLen]. *)
Theorem ring_holds_latest i s0 (calls : list PublishCall) :
  1 <= CacheLen (cfg i) <= 255 ->
  s0 !! dbKeyCacheIdx = Some [0] ->
  Forall (callGoesThrough i) calls ->
  publishAll i s0 calls !! dbKeyCacheIdx
    = Some [Z.of_nat (length calls) mod CacheLen (cfg i)] /\
  forall (k : nat) call,
    calls !! k = Some call ->
    Z.of_nat (length calls) - Z.of_nat k <= CacheLen (cfg i) ->
    slotHolds i (publishAll i s0 calls) (Z.of_nat k mod CacheLen (cfg i)) call.
Proof.
  intros HC H0. induction calls as [|call calls IH] using rev_ind; intros Hall.
  - simpl. split; [rewrite Z.mod_0_l by lia; exact H0|].
    intros k call Hk. rewrite lookup_nil in Hk. discriminate.
  - apply Forall_app in Hall as [Hall Hcall].
    apply Forall_cons in Hcall as [Hcall _].
    destruct (IH Hall) as [Hcur Hslots].
    unfold publishAll in *. rewrite fold_left_app. simpl.
    set (s := fold_left (publishCall i) calls s0) in *.
    set (n := Z.of_nat (length calls)) in *.
    pose proof (Z.mod_pos_bound n (CacheLen (cfg i)) ltac:(lia)) as Hx.
    destruct (publishCall_through i s call _ Hcall Hcur ltac:(lia))
      as (rotB & retB & Hr & Hv & ->).
    rewrite length_app. simpl.
    replace (Z.of_nat (length calls + 1)) with (n + 1) by (unfold n; lia).
    split.
    + pose proof (published_lookup (cfg i) (n mod CacheLen (cfg i))
                    (callIdenState call) (callClaimsRoot call)
                    (callRevocationsRoot call) (callRootsRoot call) rotB retB s)
        as (Hc' & _).
      rewrite Hc'. rewrite add8_small by lia.
      rewrite Zplus_mod_idemp_l. reflexivity.
    + intros k call' Hk Hw.
      destruct (decide (k < length calls)%nat) as [Hlt|Hge].
      * rewrite lookup_app_l in Hk by exact Hlt.
        apply slotHolds_frame.
        -- apply mod_distinct_in_window. unfold n. lia.
        -- apply Hslots; [exact Hk|unfold n in *; lia].
      * assert (k = length calls) as ->.
        { apply lookup_lt_Some in Hk. rewrite length_app in Hk. simpl in Hk. lia. }
        rewrite lookup_app_r in Hk by lia. rewrite Nat.sub_diag in Hk.
        simpl in Hk. injection Hk as <-.
        fold n. apply published_slotHolds; assumption.
Qed.

Lemma ring_holds_latest_witness :
  publishAll (demoPub 3) (newStore 3) [demoCall 10; demoCall 20; demoCall 30; demoCall 40]
    !! dbKeyCacheIdx
    = Some [Z.of_nat (length [demoCall 10; demoCall 20; demoCall 30; demoCall 40])
            mod CacheLen (cfg (demoPub 3))] /\
  forall (k : nat) call,
    [demoCall 10; demoCall 20; demoCall 30; demoCall 40] !! k = Some call ->
    Z.of_nat (length [demoCall 10; demoCall 20; demoCall 30; demoCall 40]) - Z.of_nat k
      <= CacheLen (cfg (demoPub 3)) ->
    slotHolds (demoPub 3)
      (publishAll (demoPub 3) (newStore 3)
         [demoCall 10; demoCall 20; demoCall 30; demoCall 40])
      (Z.of_nat k mod CacheLen (cfg (demoPub 3))) call.
Proof.
  apply (ring_holds_latest (demoPub 3) (newStore 3)
           [demoCall 10; demoCall 20; demoCall 30; demoCall 40]).
  - simpl. lia.
  - vm_compute. reflexivity.
  - repeat constructor; simpl; eauto.
Defined.

(** X4.  Round trip at any capacity: after a [Publish] that went through
    at cursor [x], [GetPublicData(nil)] returns the record just published,
    as long as the cursor did not wrap ([x + 1 < CacheLen]) or [CacheLen]
    divides 256. *)
Theorem GetPublicData_nil_after_Publish fl fl' i s s' x
    idenState claimsRoot revocationsRoot rootsRoot :
  1 <= CacheLen (cfg i) <= 255 ->
  s !! dbKeyCacheIdx = Some [x] ->
  0 <= x < CacheLen (cfg i) ->
  x + 1 < CacheLen (cfg i) \/ 256 mod CacheLen (cfg i) = 0 ->
  is_hash idenState -> is_hash claimsRoot ->
  is_hash revocationsRoot -> is_hash rootsRoot ->
  commitErr fl = None ->
  newTxErr fl' = None ->
  Publish fl i s idenState claimsRoot revocationsRoot rootsRoot = (Ok tt, s') ->
  exists rotBlob retBlob,
    DumpTree (rootsTree i) rootsRoot = Ok rotBlob /\
    DumpTree (revocationsTree i) revocationsRoot = Ok retBlob /\
    GetPublicData fl' i s' None
    = Ok {| IdenState := idenState;
            ClaimsTreeRoot := claimsRoot;
            RootsTreeRoot := rootsRoot;
            RootsTree := rotBlob;
            RevocationsTreeRoot := revocationsRoot;
            RevocationsTree := retBlob |}.
Proof.
  intros HC Hx Hxr Hwrap La Lb Lc Ld Hce Hn' HP.
  destruct (Publish_ok_inv _ _ _ _ _ _ _ _ _ _ Hx HP)
    as (rotB & retB & Hr & Hv & _ & Hnz & ->).
  rewrite Hce. exists rotB, retB. split; [exact Hr|]. split; [exact Hv|].
  pose proof (published_lookup (cfg i) x idenState claimsRoot revocationsRoot
                rootsRoot rotB retB s) as (Hcur & H1 & H2 & H3 & H4 & H5 & H6).
  rewrite (GetPublicData_nil_run fl' i _ _ [] Hn' Hcur Hnz).
  assert (Hprev : sub8 (add8 x 1 mod CacheLen (cfg i)) 1 mod CacheLen (cfg i) = x).
  { rewrite add8_small by lia. unfold sub8.
    destruct (Z.eq_dec (x + 1) (CacheLen (cfg i))) as [He|Hne].
    - rewrite He, Z_mod_same_full. change ((0 - 1) mod 256) with 255.
      destruct Hwrap as [Hlt|Hdiv]; [lia|].
      pose proof (Z.div_mod 256 (CacheLen (cfg i)) ltac:(lia)) as H256.
      rewrite Hdiv in H256.
      set (q := 256 / CacheLen (cfg i)) in *.
      symmetry. apply (Z.mod_unique_pos _ _ (q - 1)); lia.
    - rewrite (Z.mod_small (x + 1)) by lia.
      replace (x + 1 - 1) with x by lia.
      rewrite (Z.mod_small x 256) by lia. apply Z.mod_small. lia. }
  rewrite Hprev.
  rewrite (readSlot_ok _ x _ _ _ _ _ _
             (Get_fresh _ _ _ H1) (Get_fresh _ _ _ H2) (Get_fresh _ _ _ H3)
             (Get_fresh _ _ _ H4) (Get_fresh _ _ _ H5) (Get_fresh _ _ _ H6)
             La Lb Ld Lc).
  reflexivity.
Qed.

Lemma GetPublicData_nil_after_Publish_witness :
  exists rotBlob retBlob,
    DumpTree (rootsTree (demoPub 3)) (hashOf 23) = Ok rotBlob /\
    DumpTree (revocationsTree (demoPub 3)) (hashOf 22) = Ok retBlob /\
    GetPublicData noFaults (demoPub 3)
      (publishDemo 3 20 (publishDemo 3 10 (newStore 3))) None
    = Ok {| IdenState := hashOf 20;
            ClaimsTreeRoot := hashOf 21;
            RootsTreeRoot := hashOf 23;
            RootsTree := rotBlob;
            RevocationsTreeRoot := hashOf 22;
            RevocationsTree := retBlob |}.
Proof.
  apply (GetPublicData_nil_after_Publish noFaults noFaults (demoPub 3)
           (publishDemo 3 10 (newStore 3))
           (publishDemo 3 20 (publishDemo 3 10 (newStore 3))) 1
           (hashOf 20) (hashOf 21) (hashOf 22) (hashOf 23)).
  - simpl. lia.
  - vm_compute. reflexivity.
  - simpl. lia.
  - left. simpl. lia.
  - reflexivity.
  - reflexivity.
  - reflexivity.
  - reflexivity.
  - reflexivity.
  - reflexivity.
  - apply injective_projections; [vm_compute; reflexivity|reflexivity].
Defined.

(** X5.  A failed commit is not reported: [Publish] closes the transaction
    and still returns nil, and the store is exactly as before the call. *)
Theorem Publish_hides_commit_failure fl i s
    idenState claimsRoot revocationsRoot rootsRoot x rest rotBlob retBlob e :
  DumpTree (rootsTree i) rootsRoot = Ok rotBlob ->
  DumpTree (revocationsTree i) revocationsRoot = Ok retBlob ->
  newTxErr fl = None ->
  s !! dbKeyCacheIdx = Some (x :: rest) ->
  CacheLen (cfg i) <> 0 ->
  commitErr fl = Some e ->
  Publish fl i s idenState claimsRoot revocationsRoot rootsRoot = (Ok tt, s).
Proof.
  intros Hr Hv Hn Hx Hnz Hce.
  rewrite (Publish_run fl i s _ _ _ _ x rest rotBlob retBlob Hr Hv Hn Hx), Hce.
  destruct (Z.eqb_spec (CacheLen (cfg i)) 0); [contradiction|]. reflexivity.
Qed.

Lemma Publish_hides_commit_failure_witness :
  Publish {| newTxErr := None; commitErr := Some (ErrCollab 9) |} (demoPub 3) (newStore 3)
    (hashOf 1) (hashOf 2) (hashOf 3) (hashOf 4) = (Ok tt, newStore 3).
Proof.
  apply (Publish_hides_commit_failure
           {| newTxErr := None; commitErr := Some (ErrCollab 9) |} (demoPub 3) (newStore 3)
           (hashOf 1) (hashOf 2) (hashOf 3) (hashOf 4) 0 []
           (hashOf 4 ++ [7]) (hashOf 3 ++ [7]) (ErrCollab 9)).
  - reflexivity.
  - reflexivity.
  - reflexivity.
  - vm_compute. reflexivity.
  - simpl. lia.
  - reflexivity.
Defined.

(** X6.  On a storage that holds no cursor (no publisher was ever created
    on it), [Publish] and [GetPublicData(nil)] return the storage's
    not-found error, whatever [CacheLen] is, and nothing is written. *)
Theorem missing_cursor_is_not_found fl i s
    idenState claimsRoot revocationsRoot rootsRoot rotBlob retBlob :
  s !! dbKeyCacheIdx = None ->
  newTxErr fl = None ->
  DumpTree (rootsTree i) rootsRoot = Ok rotBlob ->
  DumpTree (revocationsTree i) revocationsRoot = Ok retBlob ->
  Publish fl i s idenState claimsRoot revocationsRoot rootsRoot = (Err ErrNotFound, s) /\
  GetPublicData fl i s None = Err ErrNotFound.
Proof.
  intros Hx Hn Hr Hv.
  assert (Hg : Get {| tx_base := s; tx_kv := ∅ |} dbKeyCacheIdx = Err ErrNotFound).
  { unfold Get. simpl. rewrite lookup_empty, Hx. reflexivity. }
  split.
  - unfold Publish, NewTx. rewrite Hr, Hv, Hn.
    unfold nextCacheIdx, tx_bind, tx_get. rewrite Hg. reflexivity.
  - unfold GetPublicData, NewTx. rewrite Hn.
    unfold selectCacheIdx, prevCacheIdx, tx_bind, tx_get. rewrite Hg. reflexivity.
Qed.

Lemma missing_cursor_is_not_found_witness :
  Publish noFaults (demoPub 0) ∅ (hashOf 1) (hashOf 2) (hashOf 3) (hashOf 4)
    = (Err ErrNotFound, ∅) /\
  GetPublicData noFaults (demoPub 0) ∅ None = Err ErrNotFound.
Proof.
  apply (missing_cursor_is_not_found noFaults (demoPub 0) ∅
           (hashOf 1) (hashOf 2) (hashOf 3) (hashOf 4)
           (hashOf 4 ++ [7]) (hashOf 3 ++ [7])); reflexivity.
Defined.

(** X7.  Before the first [Publish], on a storage without slot records,
    every [GetPublicData] fails: with the storage's not-found error when
    [CacheLen >= 1], for the nil query and for any other; a non-nil query
    at [CacheLen = 0] skips the scan and gets [ErrIdenStateNotFound]. *)
Theorem GetPublicData_before_first_Publish fl fl' c s rot ret i s0 q :
  (forall y, s !! slotKey dbKeyIdenState y = None) ->
  newTxErr fl' = None ->
  NewIdenPubOffChainWriteHttp fl c s rot ret = (Ok i, s0) ->
  (1 <= CacheLen c ->
     GetPublicData fl' i s0 None = Err ErrNotFound /\
     GetPublicData fl' i s0 (Some q) = Err ErrNotFound) /\
  (CacheLen c = 0 -> GetPublicData fl' i s0 (Some q) = Err ErrIdenStateNotFound).
Proof.
  intros Hs Hn' HN.
  destruct (newTxErr fl) as [e|] eqn:Hn.
  { unfold NewIdenPubOffChainWriteHttp, NewTx in HN. rewrite Hn in HN. discriminate. }
  rewrite (New_run _ _ _ _ _ Hn) in HN.
  destruct (commitErr fl); [discriminate|]. injection HN as <- <-.
  set (i := {| rootsTree := rot; revocationsTree := ret; cfg := c |}).
  set (s0 := <[dbKeyConfig := jsonConfig c]> (<[dbKeyCacheIdx := [0]]> s)).
  assert (Hcur : s0 !! dbKeyCacheIdx = Some [0]).
  { unfold s0. rewrite lookup_insert_ne by key_discr. apply lookup_insert_eq. }
  assert (Hslot : forall y, Get {| tx_base := s0; tx_kv := ∅ |} (slotKey dbKeyIdenState y)
                            = Err ErrNotFound).
  { intros y. unfold Get, s0. simpl.
    rewrite lookup_empty, !lookup_insert_ne by key_discr. rewrite Hs. reflexivity. }
  split.
  - intros HC. split.
    + rewrite (GetPublicData_nil_run fl' i s0 0 [] Hn' Hcur) by (simpl; lia).
      unfold readSlot, tx_bind, tx_get. rewrite Hslot. reflexivity.
    + rewrite (GetPublicData_query_run fl' i s0 q Hn'). cbv zeta.
      destruct (Z.to_nat (CacheLen (cfg i))) as [|n] eqn:Hk; [simpl in Hk; lia|].
      cbn [scanIdenState]. rewrite Hslot. reflexivity.
  - intros HC. rewrite (GetPublicData_query_run fl' i s0 q Hn'). cbv zeta.
    simpl. rewrite HC. reflexivity.
Qed.

Lemma GetPublicData_before_first_Publish_witness :
  (1 <= CacheLen {| CacheLen := 2 |} ->
     GetPublicData noFaults (demoPub 2) (newStore 2) None = Err ErrNotFound /\
     GetPublicData noFaults (demoPub 2) (newStore 2) (Some (hashOf 1)) = Err ErrNotFound) /\
  (CacheLen {| CacheLen := 2 |} = 0 ->
     GetPublicData noFaults (demoPub 2) (newStore 2) (Some (hashOf 1))
     = Err ErrIdenStateNotFound).
Proof.
  apply (GetPublicData_before_first_Publish noFaults noFaults {| CacheLen := 2 |} ∅
           demoTree demoTree (demoPub 2) (newStore 2) (hashOf 1)).
  - intros y. apply lookup_empty.
  - reflexivity.
  - vm_compute. reflexivity.
Defined.

(** X8.  With the default capacity of one, a query by identity state
    works: after a [Publish] that went through, [GetPublicData] of the
    published state returns its record, and [GetPublicData] of any other
    state returns [ErrIdenStateNotFound]. *)
Theorem GetPublicData_query_at_capacity_one fl fl' i s s'
    idenState claimsRoot revocationsRoot rootsRoot q :
  CacheLen (cfg i) = 1 ->
  cursorInv (cfg i) s ->
  is_hash idenState -> is_hash claimsRoot ->
  is_hash revocationsRoot -> is_hash rootsRoot ->
  commitErr fl = None ->
  newTxErr fl' = None ->
  Publish fl i s idenState claimsRoot revocationsRoot rootsRoot = (Ok tt, s') ->
  (exists rotBlob retBlob,
     DumpTree (rootsTree i) rootsRoot = Ok rotBlob /\
     DumpTree (revocationsTree i) revocationsRoot = Ok retBlob /\
     GetPublicData fl' i s' (Some idenState)
     = Ok {| IdenState := idenState;
             ClaimsTreeRoot := claimsRoot;
             RootsTreeRoot := rootsRoot;
             RootsTree := rotBlob;
             RevocationsTreeRoot := revocationsRoot;
             RevocationsTree := retBlob |}) /\
  (q <> idenState -> GetPublicData fl' i s' (Some q) = Err ErrIdenStateNotFound).
Proof.
  intros HC (x & Hx & Hx0 & Hxc) La Lb Lc Ld Hce Hn' HP.
  assert (x = 0) as -> by lia.
  destruct (Publish_ok_inv _ _ _ _ _ _ _ _ _ _ Hx HP)
    as (rotB & retB & Hr & Hv & _ & Hnz & ->).
  rewrite Hce.
  pose proof (published_lookup (cfg i) 0 idenState claimsRoot revocationsRoot
                rootsRoot rotB retB s) as (Hcur & H1 & H2 & H3 & H4 & H5 & H6).
  split.
  - exists rotB, retB. split; [exact Hr|]. split; [exact Hv|].
    rewrite (GetPublicData_query_run fl' i _ idenState Hn'). cbv zeta.
    rewrite HC. change (Z.to_nat 1) with 1%nat. cbn [scanIdenState].
    rewrite (Get_fresh _ _ _ H1), bool_decide_eq_true_2 by reflexivity.
    change (0 =? 1) with false. cbv iota.
    rewrite (readSlot_ok _ 0 _ _ _ _ _ _
               (Get_fresh _ _ _ H1) (Get_fresh _ _ _ H2) (Get_fresh _ _ _ H3)
               (Get_fresh _ _ _ H4) (Get_fresh _ _ _ H5) (Get_fresh _ _ _ H6)
               La Lb Ld Lc).
    reflexivity.
  - intros Hq. rewrite (GetPublicData_query_run fl' i _ q Hn'). cbv zeta.
    rewrite HC. change (Z.to_nat 1) with 1%nat. cbn [scanIdenState].
    rewrite (Get_fresh _ _ _ H1), bool_decide_eq_false_2 by exact Hq.
    reflexivity.
Qed.

Lemma GetPublicData_query_at_capacity_one_witness :
  (exists rotBlob retBlob,
     DumpTree (rootsTree (demoPub 1)) (hashOf 13) = Ok rotBlob /\
     DumpTree (revocationsTree (demoPub 1)) (hashOf 12) = Ok retBlob /\
     GetPublicData noFaults (demoPub 1) (publishDemo 1 10 (newStore 1)) (Some (hashOf 10))
     = Ok {| IdenState := hashOf 10;
             ClaimsTreeRoot := hashOf 11;
             RootsTreeRoot := hashOf 13;
             RootsTree := rotBlob;
             RevocationsTreeRoot := hashOf 12;
             RevocationsTree := retBlob |}) /\
  (hashOf 99 <> hashOf 10 ->
   GetPublicData noFaults (demoPub 1) (publishDemo 1 10 (newStore 1)) (Some (hashOf 99))
   = Err ErrIdenStateNotFound).
Proof.
  apply (GetPublicData_query_at_capacity_one noFaults noFaults (demoPub 1) (newStore 1)
           (publishDemo 1 10 (newStore 1))
           (hashOf 10) (hashOf 11) (hashOf 12) (hashOf 13) (hashOf 99)).
  - reflexivity.
  - exists 0. split; [vm_compute; reflexivity|]. split; [lia|left; reflexivity].
  - reflexivity.
  - reflexivity.
  - reflexivity.
  - reflexivity.
  - reflexivity.
  - reflexivity.
  - apply injective_projections; [vm_compute; reflexivity|reflexivity].
Defined.

Lemma Publish_keeps_config fl i s a b c d :
  (exists x rest, s !! dbKeyCacheIdx = Some (x :: rest)) ->
  (exists x rest, snd (Publish fl i s a b c d) !! dbKeyCacheIdx = Some (x :: rest)) /\
  snd (Publish fl i s a b c d) !! dbKeyConfig = s !! dbKeyConfig.
Proof.
  intros (x & rest & Hx).
  destruct (Publish_store_cases fl i s a b c d x rest Hx)
    as [->|(rotB & retB & _ & _ & _ & _ & _ & _ & ->)]; [eauto|].
  split.
  - pose proof (published_lookup (cfg i) x a b c d rotB retB s) as (Hc & _). eauto.
  - apply published_frame; [key_discr|].
    intros key' Hk' He. symmetry in He.
    exact (proj2 (slotKey_not_cursor key' x Hk') He).
Qed.

Lemma publishAll_keeps_config i s (calls : list PublishCall) :
  (exists x rest, s !! dbKeyCacheIdx = Some (x :: rest)) ->
  publishAll i s calls !! dbKeyConfig = s !! dbKeyConfig.
Proof.
  revert s. induction calls as [|call calls IH]; intros s Hs; [reflexivity|].
  unfold publishAll. simpl. fold (publishAll i (publishCall i s call) calls).
  destruct (Publish_keeps_config (callFaults call) i s (callIdenState call)
              (callClaimsRoot call) (callRevocationsRoot call) (callRootsRoot call) Hs)
    as [Hs' Hc].
  rewrite IH by exact Hs'. exact Hc.
Qed.

(** The decoder of the examples reads back what [jsonConfig] prints, for
    every byte. *)
Lemma parseConfig_jsonConfig n :
  0 <= n <= 255 -> parseConfig (jsonConfig {| CacheLen := n |}) = Ok {| CacheLen := n |}.
Proof.
  intros Hn. rewrite <- (Z2Nat.id n) by lia.
  assert (Hk : (Z.to_nat n < 256)%nat) by lia.
  generalize dependent (Z.to_nat n). clear Hn n. intros k Hk.
  do 256 (destruct k as [|k]; [vm_compute; reflexivity|]). lia.
Qed.

(** X9.  What the constructor stores, [LoadIdenPubOffChainWriteHttp] gives
    back: after [New] and any calls of [Publish], loading from the storage
    with the same trees returns the publisher [New] returned, provided the
    JSON decoder reads back the encoded configuration.  On a storage
    without a configuration the load fails with the storage's not-found
    error. *)
Theorem Load_returns_the_publisher (Unmarshal : list Z -> outcome Config)
    fl c s rot ret i s0 (calls : list PublishCall) :
  NewIdenPubOffChainWriteHttp fl c s rot ret = (Ok i, s0) ->
  Unmarshal (jsonConfig c) = Ok c ->
  LoadIdenPubOffChainWriteHttp Unmarshal (publishAll i s0 calls) rot ret = Ok i /\
  (forall s1 rot' ret',
     s1 !! dbKeyConfig = None ->
     LoadIdenPubOffChainWriteHttp Unmarshal s1 rot' ret' = Err ErrNotFound).
Proof.
  intros HN HU. split.
  - destruct (newTxErr fl) as [e|] eqn:Hn.
    { unfold NewIdenPubOffChainWriteHttp, NewTx in HN. rewrite Hn in HN. discriminate. }
    rewrite (New_run _ _ _ _ _ Hn) in HN.
    destruct (commitErr fl); [discriminate|]. injection HN as <- <-.
    unfold LoadIdenPubOffChainWriteHttp, LoadJSON.
    rewrite publishAll_keeps_config.
    + rewrite lookup_insert_eq, HU. reflexivity.
    + exists 0, []. rewrite lookup_insert_ne by key_discr. apply lookup_insert_eq.
  - intros s1 rot' ret' Hnone. unfold LoadIdenPubOffChainWriteHttp, LoadJSON.
    rewrite Hnone. reflexivity.
Qed.

Lemma Load_returns_the_publisher_witness :
  LoadIdenPubOffChainWriteHttp parseConfig
    (publishAll (demoPub 3) (newStore 3) [demoCall 10; demoCall 20])
    demoTree demoTree = Ok (demoPub 3) /\
  (forall s1 rot' ret',
     s1 !! dbKeyConfig = None ->
     LoadIdenPubOffChainWriteHttp parseConfig s1 rot' ret' = Err ErrNotFound).
Proof.
  apply (Load_returns_the_publisher parseConfig noFaults {| CacheLen := 3 |} ∅
           demoTree demoTree (demoPub 3) (newStore 3) [demoCall 10; demoCall 20]).
  - vm_compute. reflexivity.
  - vm_compute. reflexivity.
Defined.

Lemma Get_fresh_inv s k v :
  Get {| tx_base := s; tx_kv := ∅ |} k = Ok v -> s !! k = Some v.
Proof.
  unfold Get. simpl. rewrite lookup_empty.
  destruct (s !! k); [intros [= ->]; reflexivity|discriminate].
Qed.

Lemma Get_not_panic tx k : Get tx k <> Panic.
Proof.
  unfold Get. destruct (tx_kv tx !! k); [discriminate|].
  destruct (tx_base tx !! k); discriminate.
Qed.

Lemma scanIdenState_not_panic tx q n idx : scanIdenState tx q n idx <> Panic.
Proof.
  revert idx. induction n as [|n IH]; intros idx; simpl; [discriminate|].
  destruct (Get tx (slotKey dbKeyIdenState idx)) as [v|e|] eqn:Hg.
  - destruct (bool_decide (q = v)); [discriminate|apply IH].
  - discriminate.
  - exfalso. exact (Get_not_panic _ _ Hg).
Qed.

(** Reading a slot of a store whose hashes are well sized returns a record
    or the storage's error. *)
Lemma readSlot_not_panic s y :
  hashesWellSized s ->
  fst (readSlot y {| tx_base := s; tx_kv := ∅ |}) <> Panic.
Proof.
  intros Hw. set (tx := {| tx_base := s; tx_kv := ∅ |}).
  assert (Hh : forall key v, key ∈ hashKeys -> Get tx (slotKey key y) = Ok v ->
                 slice32 v = Ok v).
  { intros key v Hk Hg. apply slice32_hash, (Hw key y v Hk), Get_fresh_inv, Hg. }
  unfold readSlot, tx_bind, tx_get, tx_lift, tx_ret.
  destruct (Get tx (slotKey dbKeyIdenState y)) as [a|?|] eqn:G1;
    [|discriminate|exfalso; exact (Get_not_panic _ _ G1)].
  destruct (Get tx (slotKey dbKeyClaimsRoot y)) as [b|?|] eqn:G2;
    [|discriminate|exfalso; exact (Get_not_panic _ _ G2)].
  destruct (Get tx (slotKey dbKeyRootsRoot y)) as [c|?|] eqn:G3;
    [|discriminate|exfalso; exact (Get_not_panic _ _ G3)].
  destruct (Get tx (slotKey dbKeyRootsTree y)) as [d|?|] eqn:G4;
    [|discriminate|exfalso; exact (Get_not_panic _ _ G4)].
  destruct (Get tx (slotKey dbKeyRevocationsRoot y)) as [e|?|] eqn:G5;
    [|discriminate|exfalso; exact (Get_not_panic _ _ G5)].
  destruct (Get tx (slotKey dbKeyRevocationsTree y)) as [f|?|] eqn:G6;
    [|discriminate|exfalso; exact (Get_not_panic _ _ G6)].
  rewrite (Hh dbKeyIdenState a), (Hh dbKeyClaimsRoot b), (Hh dbKeyRootsRoot c),
    (Hh dbKeyRevocationsRoot e) by (first [assumption | unfold hashKeys; set_solver]).
  discriminate.
Qed.

Lemma published_hashesWellSized c x a b rr ror rotB retB s :
  is_hash a -> is_hash b -> is_hash rr -> is_hash ror ->
  hashesWellSized s ->
  hashesWellSized (published c x a b rr ror rotB retB s).
Proof.
  intros La Lb Lrr Lror Hw key y v Hkey Hv.
  destruct (Z.eq_dec y x) as [->|Hne].
  - pose proof (published_lookup c x a b rr ror rotB retB s)
      as (_ & H1 & H2 & H3 & _ & H5 & _).
    family_cases Hkey; congruence.
  - rewrite published_frame in Hv.
    + exact (Hw key y v Hkey Hv).
    + apply (slotKey_not_cursor key y (hashKeys_slotFamilies key Hkey)).
    + intros key' _ He. apply slotKey_inj in He. destruct He as [_ He]. contradiction.
Qed.

Lemma publishAll_wellSized i s (calls : list PublishCall) :
  Forall callHashes calls ->
  (exists x, s !! dbKeyCacheIdx = Some [x]) ->
  hashesWellSized s ->
  (exists x, publishAll i s calls !! dbKeyCacheIdx = Some [x]) /\
  hashesWellSized (publishAll i s calls).
Proof.
  intros Hall. revert s. induction Hall as [|call calls Hcall Hall IH];
    intros s Hs Hw; [auto|].
  unfold publishAll. simpl. fold (publishAll i (publishCall i s call) calls).
  destruct Hs as [x Hx]. destruct Hcall as (La & Lb & Lrr & Lror).
  pose proof (Publish_store_cases (callFaults call) i s (callIdenState call)
                (callClaimsRoot call) (callRevocationsRoot call) (callRootsRoot call)
                x [] Hx) as Hcases.
  fold (publishCall i s call) in Hcases.
  destruct Hcases as [->|(rotB & retB & _ & _ & _ & _ & _ & _ & ->)].
  - apply IH; eauto.
  - apply IH.
    + pose proof (published_lookup (cfg i) x (callIdenState call) (callClaimsRoot call)
                    (callRevocationsRoot call) (callRootsRoot call) rotB retB s)
        as (Hc & _). eauto.
    + apply published_hashesWellSized; assumption.
Qed.

(** X10.  With [CacheLen >= 1] nothing panics: on the store a new
    publisher and any calls of [Publish] with 32-byte hashes leave behind,
    [GetPublicData] returns a record or an error for every query, and
    [Publish] returns nil or an error whenever the tree dumps do. *)
Theorem no_panic_with_positive_CacheLen fl c s rot ret i s0 (calls : list PublishCall) :
  CacheLen c <> 0 ->
  hashesWellSized s ->
  NewIdenPubOffChainWriteHttp fl c s rot ret = (Ok i, s0) ->
  Forall callHashes calls ->
  (forall fl' q, GetPublicData fl' i (publishAll i s0 calls) q <> Panic) /\
  (forall fl' idenState claimsRoot revocationsRoot rootsRoot,
     DumpTree (rootsTree i) rootsRoot <> Panic ->
     DumpTree (revocationsTree i) revocationsRoot <> Panic ->
     fst (Publish fl' i (publishAll i s0 calls)
            idenState claimsRoot revocationsRoot rootsRoot) <> Panic).
Proof.
  intros HC Hw HN Hcalls.
  destruct (newTxErr fl) as [e|] eqn:Hn.
  { unfold NewIdenPubOffChainWriteHttp, NewTx in HN. rewrite Hn in HN. discriminate. }
  rewrite (New_run _ _ _ _ _ Hn) in HN.
  destruct (commitErr fl); [discriminate|]. injection HN as <- <-.
  set (i := {| rootsTree := rot; revocationsTree := ret; cfg := c |}).
  set (s0 := <[dbKeyConfig := jsonConfig c]> (<[dbKeyCacheIdx := [0]]> s)).
  assert (Hcur0 : exists x, s0 !! dbKeyCacheIdx = Some [x]).
  { exists 0. unfold s0. rewrite lookup_insert_ne by key_discr. apply lookup_insert_eq. }
  assert (Hw0 : hashesWellSized s0).
  { intros key y v Hkey Hv. unfold s0 in Hv.
    destruct (slotKey_not_cursor key y (hashKeys_slotFamilies key Hkey)) as [Hk1 Hk2].
    rewrite !lookup_insert_ne in Hv by (apply not_eq_sym; assumption).
    exact (Hw key y v Hkey Hv). }
  destruct (publishAll_wellSized i s0 calls Hcalls Hcur0 Hw0) as [[x Hx] Hwf].
  set (st := publishAll i s0 calls) in *.
  split.
  - intros fl' q. unfold GetPublicData, NewTx.
    destruct (newTxErr fl'); [discriminate|].
    unfold tx_bind at 1.
    destruct q as [q|].
    + unfold selectCacheIdx.
      destruct (scanIdenState _ q _ 0) as [idx|e|] eqn:Hscan;
        [|discriminate|exfalso; exact (scanIdenState_not_panic _ _ _ _ Hscan)].
      destruct (idx =? CacheLen (cfg i)); [discriminate|].
      apply readSlot_not_panic. exact Hwf.
    + unfold selectCacheIdx.
      rewrite (prevCacheIdx_ok i _ x [] (Get_fresh _ _ _ Hx)) by exact HC.
      apply readSlot_not_panic. exact Hwf.
  - intros fl' a b cR d Hr Hv.
    destruct (DumpTree (rootsTree i) d) as [rotB|e|] eqn:Er;
      [|unfold Publish; rewrite Er; discriminate|contradiction].
    destruct (DumpTree (revocationsTree i) cR) as [retB|e|] eqn:Ev;
      [|unfold Publish; rewrite Er, Ev; discriminate|contradiction].
    destruct (newTxErr fl') as [e|] eqn:Hn'.
    { unfold Publish, NewTx. rewrite Er, Ev, Hn'. discriminate. }
    rewrite (Publish_run fl' i st a b cR d x [] rotB retB Er Ev Hn' Hx).
    destruct (Z.eqb_spec (CacheLen (cfg i)) 0); [contradiction|]. discriminate.
Qed.

Lemma no_panic_with_positive_CacheLen_witness :
  (forall fl' q,
     GetPublicData fl' (demoPub 3)
       (publishAll (demoPub 3) (newStore 3) [demoCall 10; demoCall 20]) q <> Panic) /\
  (forall fl' idenState claimsRoot revocationsRoot rootsRoot,
     DumpTree (rootsTree (demoPub 3)) rootsRoot <> Panic ->
     DumpTree (revocationsTree (demoPub 3)) revocationsRoot <> Panic ->
     fst (Publish fl' (demoPub 3)
            (publishAll (demoPub 3) (newStore 3) [demoCall 10; demoCall 20])
            idenState claimsRoot revocationsRoot rootsRoot) <> Panic).
Proof.
  apply (no_panic_with_positive_CacheLen noFaults {| CacheLen := 3 |} ∅
           demoTree demoTree (demoPub 3) (newStore 3) [demoCall 10; demoCall 20]).
  - simpl. lia.
  - intros key y v _ Hv. rewrite lookup_empty in Hv. discriminate.
  - vm_compute. reflexivity.
  - repeat constructor.
Defined.

End PublisherRunFacts.

(** * Properties of the Ethereum client and of the registry client *)

Section EthFacts.

Lemma copy32_exact (l : list Z) : length l = 32%nat -> copy32 l = l.
Proof.
  intros Hl. unfold copy32. rewrite take_ge by lia. rewrite Hl. simpl.
  apply app_nil_r.
Qed.

Lemma copy32_length (l : list Z) : length (copy32 l) = 32%nat.
Proof.
  unfold copy32. rewrite length_app, repeat_length.
  pose proof (length_take_le l 32) as Hle. rewrite length_take. lia.
Qed.

(** X11.  [splitSignature] cuts a 64-byte signature into its two 32-byte
    halves: put back together they are the signature. *)
Theorem splitSignature_halves (signature : list Z) :
  length signature = 64%nat ->
  fst (splitSignature signature) ++ snd (splitSignature signature) = signature /\
  length (fst (splitSignature signature)) = 32%nat /\
  length (snd (splitSignature signature)) = 32%nat.
Proof.
  intros Hl. unfold splitSignature. simpl.
  rewrite !copy32_exact
    by (rewrite ?length_take, ?length_drop; lia).
  split; [apply take_drop|].
  rewrite length_take, length_drop. lia.
Qed.

Lemma splitSignature_halves_witness :
  fst (splitSignature (seqZ 0 64)) ++ snd (splitSignature (seqZ 0 64)) = seqZ 0 64 /\
  length (fst (splitSignature (seqZ 0 64))) = 32%nat /\
  length (snd (splitSignature (seqZ 0 64))) = 32%nat.
Proof. apply (splitSignature_halves (seqZ 0 64)). reflexivity. Defined.

(** X12.  Without an account the client makes no authorised call:
    [SetState] and [InitState] fail with [ErrAccountNil] under their own
    prefix, whatever the node, the key store and the contract would have
    answered. *)
Theorem state_calls_need_account (ip : IdenPubOnChain)
    (id genesisState newState kOpProof stateTransitionProof signature : list Z) :
  account (onchainClient ip) = None ->
  SetState ip id newState kOpProof stateTransitionProof signature
    = Failed (ErrWrap setStatePrefix ErrAccountNil) /\
  InitState ip id genesisState newState kOpProof stateTransitionProof signature
    = Failed (ErrWrap initStatePrefix ErrAccountNil).
Proof.
  intros Ha. unfold SetState, InitState, CallAuth. rewrite Ha. split; reflexivity.
Qed.

(** X13.  With an account, a pending nonce below [2^63], a gas price and a
    transactor, [SetState] calls the contract once, with the nonce and the
    gas price of the node, no value, a gas limit of 300000, the new state
    before the identifier, and the two halves of the signature; the
    contract's transaction is returned as it is and its error under the
    setState prefix. *)
Theorem SetState_reaches_contract (ip : IdenPubOnChain)
    (id newState kOpProof stateTransitionProof signature : list Z)
    (addr : list Z) (nonce gasPrice : Z) (auth : TransactOpts) (idenStates : State) :
  account (onchainClient ip) = Some addr ->
  PendingNonceAt (client (onchainClient ip)) addr = Done nonce ->
  0 <= nonce < 2 ^ 63 ->
  SuggestGasPrice (client (onchainClient ip)) = Done gasPrice ->
  NewKeyStoreTransactor (ks (onchainClient ip)) addr = Done auth ->
  NewState ip (client (onchainClient ip)) = Done idenStates ->
  length signature = 64%nat ->
  SetState ip id newState kOpProof stateTransitionProof signature =
    match contractSetState idenStates
            {| From := From auth; Nonce := Some nonce; Value := Some 0;
               GasLimit := 300000; GasPrice := Some gasPrice |}
            newState id kOpProof stateTransitionProof
            (take 32 signature) (drop 32 signature) with
    | Done tx => Done tx
    | Failed e => Failed (ErrWrap setStatePrefix e)
    end.
Proof.
  intros Ha Hn Hnr Hg Ht Hs Hl.
  unfold SetState, CallAuth. rewrite Ha, Hn, Hg, Ht, Hs.
  unfold splitSignature.
  rewrite !copy32_exact by (rewrite ?length_take, ?length_drop; lia).
  unfold int64. destruct (Z.ltb_spec nonce (2 ^ 63)); [reflexivity|lia].
Qed.

Lemma state_calls_need_account_witness :
  SetState (demoOnChain None) [1] [2] [3] [4] (seqZ 0 64)
    = Failed (ErrWrap setStatePrefix ErrAccountNil) /\
  InitState (demoOnChain None) [1] [5] [2] [3] [4] (seqZ 0 64)
    = Failed (ErrWrap initStatePrefix ErrAccountNil).
Proof.
  apply (state_calls_need_account (demoOnChain None) [1] [5] [2] [3] [4] (seqZ 0 64)).
  reflexivity.
Defined.

Lemma SetState_reaches_contract_witness :
  SetState (demoOnChain (Some [9])) [1] [2] [3] [4] (seqZ 0 64) =
    match contractSetState demoContract
            {| From := [9]; Nonce := Some 7; Value := Some 0;
               GasLimit := 300000; GasPrice := Some 20 |}
            [2] [1] [3] [4] (take 32 (seqZ 0 64)) (drop 32 (seqZ 0 64)) with
    | Done tx => Done tx
    | Failed e => Failed (ErrWrap setStatePrefix e)
    end.
Proof.
  apply (SetState_reaches_contract (demoOnChain (Some [9])) [1] [2] [3] [4] (seqZ 0 64)
           [9] 7 20
           {| From := [9]; Nonce := None; Value := None; GasLimit := 0; GasPrice := None |}
           demoContract).
  - reflexivity.
  - reflexivity.
  - lia.
  - reflexivity.
  - reflexivity.
  - reflexivity.
  - reflexivity.
Defined.

Lemma pollReceipt_Some polls rc e :
  pollReceipt polls (Some rc) e = (Some rc, e).
Proof. destruct polls; reflexivity. Qed.

Lemma pollReceipt_first pre rc e post e0 :
  Forall (fun p : option Receipt * option ethError => fst p = None) pre ->
  pollReceipt (pre ++ (Some rc, e) :: post) None e0 = (Some rc, e).
Proof.
  intros Hpre. revert e0. induction Hpre as [|[r0 e1] pre Hr0 Hpre IH]; intros e0.
  - cbn [app pollReceipt]. apply pollReceipt_Some.
  - simpl in Hr0. subst r0. cbn [app pollReceipt]. apply IH.
Qed.

Lemma pollReceipt_none polls e0 :
  Forall (fun p : option Receipt * option ethError => fst p = None) polls ->
  fst (pollReceipt polls None e0) = None.
Proof.
  intros Hall. revert e0. induction Hall as [|[r0 e1] polls Hr0 Hall IH]; intros e0.
  - reflexivity.
  - simpl in Hr0. subst r0. cbn [pollReceipt]. apply IH.
Qed.

(** X14.  [WaitReceipt] polls until the first receipt or until the time is
    up.  With no receipt in time it returns [errReceiptNotRecieved],
    whatever errors the polls gave; otherwise it returns the first receipt,
    with [errReceiptStatusFailed] when its status is failed and with the
    error of that same poll when it is not, and the later answers play no
    part. *)
Theorem WaitReceipt_first_receipt (polls : list (option Receipt * option ethError)) :
  (Forall (fun p => fst p = None) polls /\
   WaitReceipt polls = (None, Some errReceiptNotRecieved)) \/
  (exists pre rc e post,
     polls = pre ++ (Some rc, e) :: post /\
     Forall (fun p => fst p = None) pre /\
     WaitReceipt polls
     = (Some rc,
        if Status rc =? ReceiptStatusFailed then Some errReceiptStatusFailed else e)).
Proof.
  assert (Hsplit :
    Forall (fun p : option Receipt * option ethError => fst p = None) polls \/
    exists pre rc e post,
      polls = pre ++ (Some rc, e) :: post /\
      Forall (fun p : option Receipt * option ethError => fst p = None) pre).
  { induction polls as [|[r e] polls IH]; [left; constructor|].
    destruct r as [rc|].
    - right. exists [], rc, e, polls. split; [reflexivity|constructor].
    - destruct IH as [Hall|(pre & rc & e' & post & -> & Hpre)].
      + left. constructor; [reflexivity|exact Hall].
      + right. exists ((None, e) :: pre), rc, e', post.
        split; [reflexivity|]. constructor; [reflexivity|exact Hpre]. }
  destruct Hsplit as [Hall|(pre & rc & e & post & -> & Hpre)].
  - left. split; [exact Hall|]. unfold WaitReceipt.
    pose proof (pollReceipt_none polls None Hall) as Hp.
    destruct (pollReceipt polls None None) as [r err]. simpl in Hp. subst r.
    reflexivity.
  - right. exists pre, rc, e, post. split; [reflexivity|]. split; [exact Hpre|].
    unfold WaitReceipt. rewrite (pollReceipt_first pre rc e post None Hpre).
    destruct (Status rc =? ReceiptStatusFailed); reflexivity.
Qed.

End EthFacts.

(** * Properties of the endpoint's parameter decoding *)

Section EndpointFacts.

Lemma fromHexChar_hexDigit d : 0 <= d < 16 -> fromHexChar (hexDigit d) = Some d.
Proof.
  intros Hd.
  assert (Hc : d = 0 \/ d = 1 \/ d = 2 \/ d = 3 \/ d = 4 \/ d = 5 \/ d = 6 \/ d = 7 \/
               d = 8 \/ d = 9 \/ d = 10 \/ d = 11 \/ d = 12 \/ d = 13 \/ d = 14 \/ d = 15)
    by lia.
  repeat (destruct Hc as [->|Hc]; [reflexivity|]). subst d. reflexivity.
Qed.

Lemma DecodeString_encoded (bs : list Z) :
  Forall (fun b => 0 <= b < 256) bs ->
  DecodeString (flat_map (fun b => [hexDigit (b / 16); hexDigit (b mod 16)]) bs)
  = Some bs.
Proof.
  induction 1 as [|b bs Hb Hbs IH]; [reflexivity|].
  cbn [flat_map app DecodeString].
  rewrite !fromHexChar_hexDigit, IH.
  - do 2 f_equal. pose proof (Z.div_mod b 16 ltac:(lia)). lia.
  - apply Z.mod_pos_bound. lia.
  - split; [apply Z.div_pos; lia|apply Z.div_lt_upper_bound; lia].
Qed.

Lemma pair_ind {A : Type} (P : list A -> Prop) :
  P [] -> (forall a, P [a]) -> (forall a b l, P l -> P (a :: b :: l)) ->
  forall l, P l.
Proof.
  intros H0 H1 H2 l.
  assert (H : P l /\ forall a, P (a :: l)); [|exact (proj1 H)].
  induction l as [|b l [IHl IHc]]; [split; auto|].
  split; [apply IHc|]. intros a. apply H2. exact IHl.
Qed.

Lemma DecodeString_odd (l : list ascii) :
  Nat.odd (length l) = true -> DecodeString l = None.
Proof.
  induction l as [|a|a b l IH] using pair_ind.
  - discriminate.
  - reflexivity.
  - intros Hodd. cbn [DecodeString].
    rewrite IH by exact Hodd.
    destruct (fromHexChar a), (fromHexChar b); reflexivity.
Qed.

Lemma append_0x (s : string) :
  String.append "0x" s = String "0" (String "x" s).
Proof. reflexivity. Qed.

Lemma prefix_0x (s : string) :
  String.prefix "0x" (String "0" (String "x" s)) = true.
Proof.
  cbn [String.prefix].
  destruct (ascii_dec "0" "0") as [_|Hn]; [|contradiction].
  destruct (ascii_dec "x" "x") as [_|Hn]; [|contradiction].
  destruct s; reflexivity.
Qed.

Lemma drop_0x (s : string) :
  drop 2 (list_ascii_of_string (String "0" (String "x" s))) = list_ascii_of_string s.
Proof. reflexivity. Qed.

Lemma length_list_ascii (s : string) :
  length (list_ascii_of_string s) = String.length s.
Proof. induction s as [|c s IH]; simpl; [reflexivity|rewrite IH; reflexivity]. Qed.

(** X15.  Every byte string printed by [hex.EncodeToString] and prefixed
    with 0x is decoded back to itself by [decodeHexParamOrFail], the empty
    one included. *)
Theorem decodeHexParamOrFail_roundtrip (param : string) (bs : list Z) :
  Forall (fun b => 0 <= b < 256) bs ->
  decodeHexParamOrFail param (String.append "0x" (EncodeToString bs)) = Decoded bs.
Proof.
  intros Hbs. unfold decodeHexParamOrFail, EncodeToString.
  set (digits := flat_map (fun b => [hexDigit (b / 16); hexDigit (b mod 16)]) bs).
  assert (Hne : String.eqb (String.append "0x" (string_of_list_ascii digits)) "0x0" = false).
  { apply String.eqb_neq. intros He.
    rewrite append_0x in He. injection He as He.
    apply (f_equal String.length) in He.
    rewrite <- length_list_ascii, list_ascii_of_string_of_list_ascii in He.
    unfold digits in He. destruct bs as [|b bs']; simpl in He; lia. }
  rewrite Hne. rewrite append_0x, prefix_0x, drop_0x. cbn [negb].
  rewrite list_ascii_of_string_of_list_ascii.
  unfold digits. rewrite (DecodeString_encoded bs Hbs). reflexivity.
Qed.

Lemma decodeHexParamOrFail_roundtrip_witness :
  decodeHexParamOrFail "data" (String.append "0x" (EncodeToString [0; 171; 255]))
  = Decoded [0; 171; 255].
Proof.
  apply (decodeHexParamOrFail_roundtrip "data" [0; 171; 255]).
  repeat constructor; lia.
Defined.

(** X16.  What [decodeHexParamOrFail] turns down: a value without the 0x
    prefix, with a message naming the parameter, and a value with an odd
    number of digits, the literal 0x0 apart, with the message for the data
    parameter whatever the parameter is. *)
Theorem decodeHexParamOrFail_rejects (param hexvalue digits : string) :
  (String.prefix "0x" hexvalue = false ->
   decodeHexParamOrFail param hexvalue
   = Rejected (String.append "bad " (String.append param " parameter"))) /\
  (Nat.odd (String.length digits) = true ->
   digits <> "0"%string ->
   decodeHexParamOrFail param (String.append "0x" digits)
   = Rejected "bad data parameter") /\
  decodeHexParamOrFail param "0x0" = Decoded [].
Proof.
  split; [|split].
  - intros Hp. unfold decodeHexParamOrFail. rewrite Hp. reflexivity.
  - intros Hodd Hne. unfold decodeHexParamOrFail.
    assert (He : String.eqb (String.append "0x" digits) "0x0" = false).
    { apply String.eqb_neq. intros He. apply Hne.
      rewrite append_0x in He. injection He as He. exact He. }
    rewrite He. rewrite append_0x, prefix_0x, drop_0x. cbn [negb].
    rewrite DecodeString_odd; [reflexivity|].
    rewrite length_list_ascii. exact Hodd.
  - reflexivity.
Qed.

Lemma decodeHexParamOrFail_rejects_witness :
  decodeHexParamOrFail "sig" "12" = Rejected "bad sig parameter" /\
  decodeHexParamOrFail "sig" "0x1" = Rejected "bad data parameter" /\
  decodeHexParamOrFail "sig" "0x0" = Decoded [].
Proof.
  destruct (decodeHexParamOrFail_rejects "sig" "12" "1") as (H1 & H2 & H3).
  split; [apply H1; reflexivity|].
  split; [apply H2; [reflexivity|discriminate]|exact H3].
Defined.

End EndpointFacts.
